(** * PunDat: a shallow embedding of the archiver core

    The development follows the layout of the Go sources:

    - [Go]          the few pieces of Go semantics the code relies on
                    (panics, [int64] wrap-around, slicing, errors);
    - [Common]      the declarations of package [common] the code uses;
    - [BtrDB]       [archiver/btrdb.v4.go], the timeseries adapter;
    - [Archiver]    [archiver/archiver.go], the query listener;
    - [Bolt]        the ordered key/value store behind the prefix index;
    - [Prefix]      package [prefix], the prefix store;
    - [Mongo]       the metadata store adapter;
    - [Register]    [createStream] and [RegisterStream] of the timeseries
                    adapter;
    - [Reads]       [nearest], [Prev], [Next] and [DeleteData] of the
                    timeseries adapter.

    Definitions come first (Part I), the properties after them (Parts II
    and III). *)

From Stdlib Require Import ZArith String Ascii List Bool Lia Sorted.
From stdpp Require Import gmap strings.
Import ListNotations.

Local Open Scope Z_scope.

(* ===================================================================== *)
(** * Part I: the program                                                 *)
(* ===================================================================== *)

(** ** Go semantics used by the code *)
Module Go.

(** A call either returns or panics.  A panic is not an [error] value: it
    unwinds the goroutine (running deferred calls) and, unrecovered,
    aborts the process. *)
Inductive outcome (A : Type) : Type :=
| Returned (a : A)
| Panicked (why : string).
Arguments Returned {A} a.
Arguments Panicked {A} why.

Definition bind {A B} (m : outcome A) (k : A -> outcome B) : outcome B :=
  match m with
  | Returned a => k a
  | Panicked why => Panicked why
  end.

#[export] Instance outcome_ret : MRet outcome := fun A a => Returned a.
#[export] Instance outcome_bind : MBind outcome := fun A B k m => bind m k.

Definition panics {A} (m : outcome A) : bool :=
  match m with Panicked _ => true | Returned _ => false end.

(** Values of type [error].  [errors.New] and [fmt.Errorf] build a leaf,
    [errors.Wrap] keeps the cause.  A package-level sentinel is compared
    with [==], that is by identity, hence it gets its own constructor. *)
Inductive error : Type :=
| errStreamNotExist
| ErrNew (msg : string)
| ErrWrap (cause : error) (msg : string).

(** [err.Error()] *)
Fixpoint Error (e : error) : string :=
  match e with
  | errStreamNotExist => "Stream does not exist"
  | ErrNew msg => msg
  | ErrWrap cause msg => msg +:+ ": " +:+ Error cause
  end.

(** [err == errStreamNotExist] *)
Definition is_errStreamNotExist (e : error) : bool :=
  match e with errStreamNotExist => true | _ => false end.

(** Two's complement [int64]. *)
Definition wrap64 (z : Z) : Z := (z + 2 ^ 63) mod 2 ^ 64 - 2 ^ 63.

(** [s[:hi]] on a string: a run-time panic unless [0 <= hi <= len(s)]. *)
Definition slice_to (s : string) (hi : Z) : outcome string :=
  if (0 <=? hi) && (hi <=? Z.of_nat (String.length s))
  then Returned (substring 0 (Z.to_nat hi) s)
  else Panicked "slice bounds out of range".

(** [l[i]] on a slice. *)
Definition index {A} (l : list A) (i : nat) : outcome A :=
  match nth_error l i with
  | Some a => Returned a
  | None => Panicked "index out of range"
  end.

End Go.
Export Go.

(** ** Package [common]: the declarations the archiver uses, taken as an
    interface *)
Module Common.

(** [common.UUID]: convertible from and to [[]byte]; 16 bytes on disk. *)
Definition UUID := string.

(** [common.UnitOfTime] is an unsigned integer type.  The values of its
    constants, the conversion from [int] and [common.ConvertTime] are
    taken as an interface. *)
Definition UnitOfTime := Z.

Class Decls := {
  UOT_NS : UnitOfTime;
  UOT_S : UnitOfTime;
  (** the conversion [common.UnitOfTime(n)] of an [int] *)
  UnitOfTime_of_int : Z -> UnitOfTime;
  (** [common.ConvertTime(time, from, to)] returns [(int64, error)] *)
  ConvertTime : Z -> UnitOfTime -> UnitOfTime -> Z * option error;
  (** [MaximumTime], a constant of package [archiver] *)
  MaximumTime : Z
}.

End Common.
Export Common.

(** ** [archiver/btrdb.v4.go] *)
Module BtrDB.

(** *** The engine client ([gopkg.in/btrdb.v4]) and the Go library,
        as the adapter sees them *)

(** [*btrdb.Stream]: a handle on the stream of one UUID. *)
Record Stream := { stream_UUID : UUID }.

(** [btrdb.RawPoint] *)
Record RawPoint (float64 : Type) := { rp_Time : Z; rp_Value : float64 }.
Arguments rp_Time {float64} r.
Arguments rp_Value {float64} r.

(** [common.TimeseriesReading]; [Time] is kept in nanoseconds since the
    epoch ([time.Unix(0, t)] and [UnixNano] are inverse on [int64]). *)
Record TimeseriesReading (float64 : Type) :=
  { tr_Time : Z; tr_Unit : UnitOfTime; tr_Value : float64 }.
Arguments tr_Time {float64} t.
Arguments tr_Unit {float64} t.
Arguments tr_Value {float64} t.

(** [common.Timeseries] *)
Record Timeseries (float64 : Type) := {
  ts_UUID : UUID;
  ts_Records : list (TimeseriesReading float64);
  ts_Generation : Z
}.
Arguments ts_UUID {float64} t.
Arguments ts_Records {float64} t.
Arguments ts_Generation {float64} t.

Class Engine := {
  float64 : Type;
  (** [stream.Exists(ctx)] *)
  Exists : Stream -> bool * option error;
  (** [stream.InsertF(ctx, n, timefunc, valfunc)]; the callbacks index
      [readings.Records], so the call is given the readings; it runs
      foreign code and the callbacks, and may panic. *)
  InsertF : Stream -> Timeseries float64 -> outcome (option error);
  (** [stream.RawValues(ctx, start, end, 0)], the three channels drained:
      the points, the generation, the error *)
  RawValues : Stream -> Z -> Z -> list (RawPoint float64) * Z * option error;
  (** [stream.Annotations(ctx)]: the version and the error (the
      annotations themselves are discarded by the adapter) *)
  Annotations : Stream -> Z * option error;
  (** [stream.CompareAndSetAnnotation(ctx, ver, annotations)] *)
  CompareAndSetAnnotation : Stream -> Z -> gmap string string -> option error;
  (** [strings.ToLower] *)
  ToLower : string -> string
}.

(** *** State *)

(** [btrdbv4Iface]: the stream cache, keyed by [uuid.String()]. *)
Record btrdbv4Iface := { streamCache : gmap string Stream }.

(** The package-level counters [currentWrites] and [completedWrites]. *)
Record counters := { currentWrites : Z; completedWrites : Z }.

Inductive counter := CurrentWrites | CompletedWrites.

(** What a call does to the world outside its own frame, in order. *)
Inductive event :=
| AtomicAddInt64 (c : counter) (delta : Z)
| CallInsertF (s : Stream).

(** [atomic.AddInt64(&c, delta)] *)
Definition atomic_AddInt64 (c : counter) (delta : Z) (g : counters) : counters :=
  match c with
  | CurrentWrites =>
      {| currentWrites := wrap64 (currentWrites g + delta);
         completedWrites := completedWrites g |}
  | CompletedWrites =>
      {| currentWrites := currentWrites g;
         completedWrites := wrap64 (completedWrites g + delta) |}
  end.

(** The counters after a sequence of events. *)
Definition replay (g : counters) (tr : list event) : counters :=
  fold_left (fun g e =>
               match e with
               | AtomicAddInt64 c d => atomic_AddInt64 c d g
               | CallInsertF _ => g
               end) tr g.

Section Adapter.
Context `{D : Decls} `{E : Engine}.

(** [func (bdb *btrdbv4Iface) getStream(streamuuid common.UUID)
      (stream *btrdb.Stream, err error)] *)
Definition getStream (bdb : btrdbv4Iface) (streamuuid : UUID)
  : btrdbv4Iface * (Stream * option error) :=
  match streamCache bdb !! streamuuid with
  | Some stream => (bdb, (stream, None))
  | None =>
      let stream := {| stream_UUID := streamuuid |} in
      match Exists stream with
      | (_, Some existsErr) =>
          (bdb, (stream, Some (ErrWrap existsErr "Could not fetch stream")))
      | (true, None) =>
          ({| streamCache := <[streamuuid := stream]> (streamCache bdb) |},
           (stream, None))
      | (false, None) => (bdb, (stream, Some errStreamNotExist))
      end
  end.

(** [func (bdb *btrdbv4Iface) uuidsToStreams(uuids ...common.UUID) []*btrdb.Stream] *)
Fixpoint uuidsToStreams (bdb : btrdbv4Iface) (uuids : list UUID)
  : btrdbv4Iface * list Stream :=
  match uuids with
  | [] => (bdb, [])
  | id :: rest =>
      let '(bdb, (stream, err)) := getStream bdb id in
      let '(bdb', streams) := uuidsToStreams bdb rest in
      match err with
      | None => (bdb', stream :: streams)
      | Some _ => (bdb', streams)
      end
  end.

(** [func (bdb *btrdbv4Iface) StreamExists(streamuuid common.UUID) (bool, error)] *)
Definition StreamExists (bdb : btrdbv4Iface) (streamuuid : UUID)
  : btrdbv4Iface * (bool * option error) :=
  let '(bdb, (_, err)) := getStream bdb streamuuid in
  match err with
  | None => (bdb, (true, None))
  | Some e =>
      if is_errStreamNotExist e then (bdb, (false, None))
      else (bdb, (false, Some e))
  end.

(** The result of one [AddReadings] call: the adapter, the counters and
    the events of the call, and what the call returns. *)
Record AddReadingsRun := {
  run_bdb : btrdbv4Iface;
  run_counters : counters;
  run_trace : list event;
  run_result : outcome (option error)
}.

(** [func (bdb *btrdbv4Iface) AddReadings(readings common.Timeseries) error].
    The deferred function runs when the call returns and when it
    panics. *)
Definition AddReadings (bdb : btrdbv4Iface) (g : counters)
    (readings : Timeseries float64) : AddReadingsRun :=
  let '(bdb, (stream, err)) := getStream bdb (ts_UUID readings) in
  match err with
  | Some err =>
      {| run_bdb := bdb; run_counters := g; run_trace := [];
         run_result :=
           Returned (Some (ErrWrap err "AddReadings: could not get stream")) |}
  | None =>
      let g := atomic_AddInt64 CurrentWrites 1 g in
      let res := InsertF stream readings in
      (* deferred *)
      let g := atomic_AddInt64 CurrentWrites (-1) g in
      let g := atomic_AddInt64 CompletedWrites 1 g in
      {| run_bdb := bdb; run_counters := g;
         run_trace := [AtomicAddInt64 CurrentWrites 1; CallInsertF stream;
                       AtomicAddInt64 CurrentWrites (-1);
                       AtomicAddInt64 CompletedWrites 1];
         run_result := res |}
  end.

(** [rawpointToTimeseriesReading] *)
Definition rawpointToTimeseriesReading (point : RawPoint float64)
    (uot : UnitOfTime) : TimeseriesReading float64 :=
  {| tr_Time := rp_Time point; tr_Unit := uot; tr_Value := rp_Value point |}.

(** The loop of [GetData] over the streams: the first failing read ends
    it with the results so far. *)
Fixpoint getData (streams : list Stream) (start end_ : Z)
    (results : list (Timeseries float64))
  : list (Timeseries float64) * option error :=
  match streams with
  | [] => (results, None)
  | stream :: rest =>
      let '(rawpoints, generation, err) := RawValues stream start end_ in
      let ts := {| ts_UUID := stream_UUID stream;
                   ts_Records :=
                     map (fun p => rawpointToTimeseriesReading p UOT_NS) rawpoints;
                   ts_Generation := generation |} in
      match err with
      | Some err =>
          (results, Some (ErrWrap err
             ("Could not fetch rawdata for stream " +:+ stream_UUID stream)))
      | None => getData rest start end_ (results ++ [ts])
      end
  end.

(** [func (bdb *btrdbv4Iface) GetData(uuids []common.UUID, start, end int64)
      ([]common.Timeseries, error)] *)
Definition GetData (bdb : btrdbv4Iface) (uuids : list UUID) (start end_ : Z)
  : btrdbv4Iface * (list (Timeseries float64) * option error) :=
  let '(bdb, streams) := uuidsToStreams bdb uuids in
  (bdb, getData streams start end_ []).

(** [func (bdb *btrdbv4Iface) GetDataUUID(uuid common.UUID, start, end int64,
      uot common.UnitOfTime) (common.Timeseries, error)] *)
Definition GetDataUUID (bdb : btrdbv4Iface) (uuid : UUID) (start end_ : Z)
    (uot : UnitOfTime)
  : outcome (btrdbv4Iface * (Timeseries float64 * option error)) :=
  let '(bdb, streams) := uuidsToStreams bdb [uuid] in
  stream ← index streams 0;
  let '(rawpoints, generation, err) := RawValues stream start end_ in
  let ts := {| ts_UUID := stream_UUID stream;
               ts_Records :=
                 map (fun p => rawpointToTimeseriesReading p uot) rawpoints;
               ts_Generation := generation |} in
  match err with
  | Some err =>
      mret (bdb, (ts, Some (ErrWrap err
             ("Could not fetch rawdata for stream " +:+ stream_UUID stream))))
  | None => mret (bdb, (ts, None))
  end.

(** [interface{}] values as they arrive in an annotation update. *)
Inductive value :=
| VString (s : string)
| VInt (n : Z)
| VBool (b : bool)
| VNil.

(** [v.(string)]: the one-result type assertion panics on any other
    dynamic type. *)
Definition assert_string (v : value) : outcome string :=
  match v with
  | VString s => Returned s
  | _ => Panicked "interface conversion: interface {} is not string"
  end.

(** The loop [for k, v := range updates] of [AddAnnotations]; [updates]
    lists the entries of the map in the order the loop visits them. *)
Fixpoint annotate (updates : list (string * value))
    (annotations : gmap string string) : outcome (gmap string string) :=
  match updates with
  | [] => Returned annotations
  | (k, v) :: rest =>
      vs ← assert_string v;
      annotate rest (<[ToLower k := vs]> annotations)
  end.

(** [func (bdb *btrdbv4Iface) AddAnnotations(uuid common.UUID,
      updates map[string]interface{}) error] *)
Definition AddAnnotations (bdb : btrdbv4Iface) (uuid : UUID)
    (updates : list (string * value))
  : outcome (btrdbv4Iface * option error) :=
  let '(bdb, streams) := uuidsToStreams bdb [uuid] in
  match streams with
  | stream :: _ =>
      annotations ← annotate updates ∅;
      match Annotations stream with
      | (_, Some err) => mret (bdb, Some err)
      | (ver, None) =>
          mret (bdb, CompareAndSetAnnotation stream ver annotations)
      end
  | [] => mret (bdb, None)
  end.

End Adapter.

(** [func (bdb *btrdbv4Iface) ValidTimestamp(time int64, uot common.UnitOfTime) bool] *)
Definition ValidTimestamp `{D : Decls} (time : Z) (uot : UnitOfTime) : bool :=
  let '(time, err) :=
    if negb (uot =? UOT_NS) then ConvertTime time uot UOT_NS
    else (time, None) in
  (time >=? 0) && (time <=? MaximumTime) &&
  match err with None => true | Some _ => false end.

End BtrDB.
Export BtrDB.

(** ** [archiver/archiver.go] *)
Module Archiver.

(** [KeyValueQuery], the body of a query request. *)
Record KeyValueQuery := { Query : string; Nonce : Z }.

(** The zero value of [KeyValueQuery], what [var query KeyValueQuery] holds
    until something is decoded into it. *)
Definition zeroKeyValueQuery : KeyValueQuery := {| Query := ""; Nonce := 0 |}.

(** [QueryError] *)
Record QueryError := { qe_Query : string; qe_Nonce : Z; qe_Error : string }.

(** *** The messaging fabric ([bw2bind]) as the listener sees it *)

(** An inbound payload object: either it is not a [bw2.MsgPackPayloadObject],
    or it is one and [obj.ValueInto(&query)] decodes it or fails. *)
Inductive PayloadBody :=
| NotMsgPack
| MsgPack (ValueInto : KeyValueQuery + error).

Record PayloadObject := {
  (** [p.IsTypeDF(bw2.PODFGilesKeyValueQuery)] *)
  IsGilesKeyValueQuery : bool;
  po_body : PayloadBody
}.

(** [bw2.SimpleMessage] *)
Record SimpleMessage := { From : string; POs : list PayloadObject }.

(** [msg.GetOnePODF(bw2.PODFGilesKeyValueQuery)]: the first payload object
    of that type, or [nil]. *)
Definition GetOnePODF (msg : SimpleMessage) : option PayloadObject :=
  List.find IsGilesKeyValueQuery (POs msg).

(** *** The query language ([querylang]) and the evaluators *)

Inductive QueryType := SELECT_TYPE | DATA_TYPE | OTHER_QUERY_TYPE.
Inductive DataQueryType := IN_TYPE | BEFORE_TYPE | AFTER_TYPE | OTHER_DATA_TYPE.

(** The parameter types of package [common], the result types, the parser
    and the evaluators of package [archiver] that [HandleQuery] calls; they
    are taken as an interface.  An evaluator may panic. *)
Class Evaluators := {
  DistinctParams : Type;
  TagParams : Type;
  DataParams : Type;
  dp_Tag : DistinctParams -> string;
  IsStatistical : DataParams -> bool;
  IsWindow : DataParams -> bool;
  IsChangedRanges : DataParams -> bool;
  MetadataGroup : Type;
  TimeseriesResult : Type;
  StatisticTimeseries : Type;
  ChangedRange : Type;
  (** the literal [common.MetadataGroup{Records: {tag: &MetadataRecord{Key: tag,
      Value: results}}}] *)
  DistinctGroup : string -> list string -> MetadataGroup;
  DistinctTag : string -> DistinctParams -> outcome (list string * option error);
  SelectTags : string -> TagParams -> outcome (list MetadataGroup * option error);
  SelectStatisticalData :
    string -> DataParams -> outcome (list StatisticTimeseries * option error);
  GetChangedRanges : DataParams -> outcome (list ChangedRange * option error);
  SelectDataRange :
    string -> DataParams -> outcome (list TimeseriesResult * option error);
  SelectDataBefore :
    string -> DataParams -> outcome (list TimeseriesResult * option error);
  SelectDataAfter :
    string -> DataParams -> outcome (list TimeseriesResult * option error)
}.

Section Listener.
Context `{Ev : Evaluators}.

(** What [parsed.GetParams()] holds: an [interface{}] with one of the
    parameter types, or something else. *)
Inductive Params :=
| PDistinct (p : DistinctParams)
| PTag (p : TagParams)
| PData (p : DataParams)
| POther.

(** The parse tree, as far as [HandleQuery] reads it: [parsed.Err],
    [parsed.ErrPos] (as [%v] prints it), [parsed.QueryType],
    [parsed.Distinct], [parsed.GetParams()], [parsed.Data.Dtype]. *)
Record ParsedQuery := {
  p_Err : option error;
  p_ErrPos : string;
  p_QueryType : QueryType;
  p_Distinct : bool;
  p_GetParams : Params;
  p_Dtype : DataQueryType
}.

(** [a.qp.Parse] *)
Variable Parse : string -> ParsedQuery.

(** The one-result type assertions on [parsed.GetParams()]. *)
Definition assert_DistinctParams (p : Params) : outcome DistinctParams :=
  match p with
  | PDistinct p => Returned p
  | _ => Panicked "interface conversion: not *common.DistinctParams"
  end.

Definition assert_TagParams (p : Params) : outcome TagParams :=
  match p with
  | PTag p => Returned p
  | _ => Panicked "interface conversion: not *common.TagParams"
  end.

Definition assert_DataParams (p : Params) : outcome DataParams :=
  match p with
  | PData p => Returned p
  | _ => Panicked "interface conversion: not *common.DataParams"
  end.

(** The named results of [HandleQuery]. *)
Record QueryResult := {
  mdResult : list MetadataGroup;
  tsResult : list TimeseriesResult;
  statsResult : list StatisticTimeseries;
  changedResult : list ChangedRange;
  err : option error
}.

(** All results at their zero value. *)
Definition noResult : QueryResult :=
  {| mdResult := []; tsResult := []; statsResult := []; changedResult := [];
     err := None |}.

Definition quote : string := String (ascii_of_nat 34) EmptyString.
Definition newline : string := String (ascii_of_nat 10) EmptyString.

(** The message of the parse error, [fmt.Errorf] with the format
    [Error (%v) in query QUOTE%vQUOTE (error at %v)NEWLINE]. *)
Definition parseErrorf (perr : error) (query pos : string) : error :=
  ErrNew ("Error (" +:+ Error perr +:+ ") in query " +:+ quote +:+ query
          +:+ quote +:+ " (error at " +:+ pos +:+ ")" +:+ newline).

(** [func (a *Archiver) HandleQuery(vk, query string) (mdResult, tsResult,
      statsResult, changedResult, err)] *)
Definition HandleQuery (vk query : string) : outcome QueryResult :=
  let parsed := Parse query in
  match p_Err parsed with
  | Some perr =>
      Returned {| mdResult := []; tsResult := []; statsResult := [];
                  changedResult := [];
                  err := Some (parseErrorf perr query (p_ErrPos parsed)) |}
  | None =>
      match p_QueryType parsed with
      | SELECT_TYPE =>
          if p_Distinct parsed then
            params ← assert_DistinctParams (p_GetParams parsed);
            '(results, e) ← DistinctTag vk params;
            Returned {| mdResult := [DistinctGroup (dp_Tag params) results];
                        tsResult := []; statsResult := []; changedResult := [];
                        err := e |}
          else
            params ← assert_TagParams (p_GetParams parsed);
            '(md, e) ← SelectTags vk params;
            Returned {| mdResult := md; tsResult := []; statsResult := [];
                        changedResult := []; err := e |}
      | DATA_TYPE =>
          params ← assert_DataParams (p_GetParams parsed);
          if IsStatistical params || IsWindow params then
            '(stats, e) ← SelectStatisticalData vk params;
            Returned {| mdResult := []; tsResult := []; statsResult := stats;
                        changedResult := []; err := e |}
          else if IsChangedRanges params then
            '(changed, e) ← GetChangedRanges params;
            Returned {| mdResult := []; tsResult := []; statsResult := [];
                        changedResult := changed; err := e |}
          else
            match p_Dtype parsed with
            | IN_TYPE =>
                '(ts, e) ← SelectDataRange vk params;
                Returned {| mdResult := []; tsResult := ts; statsResult := [];
                            changedResult := []; err := e |}
            | BEFORE_TYPE =>
                '(ts, e) ← SelectDataBefore vk params;
                Returned {| mdResult := []; tsResult := ts; statsResult := [];
                            changedResult := []; err := e |}
            | AFTER_TYPE =>
                '(ts, e) ← SelectDataAfter vk params;
                Returned {| mdResult := []; tsResult := ts; statsResult := [];
                            changedResult := []; err := e |}
            | OTHER_DATA_TYPE => Returned noResult
            end
      | OTHER_QUERY_TYPE => Returned noResult
      end
  end.

(** *** Replies *)

(** Modelled from the spec: [POsFromMetadataGroup], [POsFromTimeseriesGroup]
    and [POsFromChangedGroup] are defined elsewhere in package [archiver]; each
    wraps its results into one payload object that carries the nonce it is
    given.  [PO_QueryError] is the payload object
    [bw2.CreateMsgPackPayloadObject(bw2.PONumGilesQueryError, msg)]. *)
Inductive ReplyPO :=
| PO_QueryError (msg : QueryError)
| PO_Metadata (nonce : Z) (md : list MetadataGroup)
| PO_Timeseries (nonce : Z) (ts : list TimeseriesResult)
                (stats : list StatisticTimeseries)
| PO_Changed (nonce : Z) (changed : list ChangedRange).

Definition POsFromMetadataGroup := PO_Metadata.
Definition POsFromTimeseriesGroup := PO_Timeseries.
Definition POsFromChangedGroup := PO_Changed.

(** The nonce a reply payload carries. *)
Definition po_nonce (po : ReplyPO) : Z :=
  match po with
  | PO_QueryError msg => qe_Nonce msg
  | PO_Metadata nonce _ => nonce
  | PO_Timeseries nonce _ _ => nonce
  | PO_Changed nonce _ => nonce
  end.

(** One call [a.iface.PublishSignal(signalURI, pos...)]. *)
Definition Publication : Type := string * list ReplyPO.

(** The query that [listenQueries] goes on with after looking at the
    payload object, or [None] where it returns. *)
Definition decodeQuery (po : PayloadObject) : option KeyValueQuery :=
  match po_body po with
  | NotMsgPack => Some zeroKeyValueQuery  (* logged; no return *)
  | MsgPack (inr _) => None               (* logged; return *)
  | MsgPack (inl query) => Some query
  end.

(** The reply assembled from the results of a successful query. *)
Definition assembleReply (nonce : Z) (r : QueryResult) : list ReplyPO :=
  let reply := [] in
  let reply :=
    if (0 <? length (mdResult r))%nat
    then reply ++ [POsFromMetadataGroup nonce (mdResult r)] else reply in
  let reply :=
    if (0 <? length (tsResult r) + length (statsResult r))%nat
    then reply ++ [POsFromTimeseriesGroup nonce (tsResult r) (statsResult r)]
    else reply in
  let reply :=
    if (0 <? length (changedResult r))%nat
    then reply ++ [POsFromChangedGroup nonce (changedResult r)] else reply in
  if (length reply =? 0)%nat
  then reply ++ [POsFromMetadataGroup nonce (mdResult r)]
  else reply.

(** [fmt.Sprintf] with the format [%s,queries] on [fromVK[:len(fromVK)-1]] *)
Definition signalURIFor (fromVK : string) : outcome string :=
  key ← slice_to fromVK (Z.of_nat (String.length fromVK) - 1);
  Returned (key +:+ ",queries").

(** The reply channel in the words of the specification: the requester's
    key without its last character, followed by [,queries]. *)
Definition replySignal (fromVK : string) : string :=
  substring 0 (String.length fromVK - 1) fromVK +:+ ",queries".

(** [func (a *Archiver) listenQueries(msg *bw2.SimpleMessage)]: the calls
    of [PublishSignal] it makes, in order. *)
Definition listenQueries (msg : SimpleMessage) : outcome (list Publication) :=
  let fromVK := From msg in
  match GetOnePODF msg with
  | None => Returned []
  | Some po =>
      match decodeQuery po with
      | None => Returned []
      | Some query =>
          signalURI ← signalURIFor fromVK;
          r ← HandleQuery fromVK (Query query);
          match err r with
          | Some e =>
              let msg := {| qe_Query := Query query; qe_Nonce := Nonce query;
                            qe_Error := Error e |} in
              Returned [(signalURI, [PO_QueryError msg])]
          | None =>
              Returned [(signalURI, assembleReply (Nonce query) r)]
          end
      end
  end.

End Listener.

End Archiver.
Export Archiver.

(** ** The embedded ordered key/value store ([github.com/boltdb/bolt]) *)
Module Bolt.

(** Keys are byte strings, kept in byte-wise lexicographic order. *)
Definition key_ltb (a b : string) : bool := String.ltb a b.

Definition MaxKeySize : Z := 32768.
Definition MaxValueSize : Z := 2 ^ 31 - 2.

Definition ErrKeyRequired : error := ErrNew "key required".
Definition ErrKeyTooLarge : error := ErrNew "key too large".
Definition ErrValueTooLarge : error := ErrNew "value too large".
Definition ErrBucketNameRequired : error := ErrNew "bucket name required".

(** A bucket of plain key/value pairs: the pairs in key order, and the
    bucket's sequence counter (a [uint64]). *)
Record Bucket := { pairs : list (string * string); sequence : Z }.

Definition emptyBucket : Bucket := {| pairs := []; sequence := 0 |}.

(** Ordered insertion; an existing key has its value replaced. *)
Fixpoint put {V} (k : string) (v : V) (l : list (string * V)) : list (string * V) :=
  match l with
  | [] => [(k, v)]
  | (k', v') :: rest =>
      match String.compare k k' with
      | Lt => (k, v) :: l
      | Eq => (k, v) :: rest
      | Gt => (k', v') :: put k v rest
      end
  end.

(** Lookup by key. *)
Fixpoint get {V} (k : string) (l : list (string * V)) : option V :=
  match l with
  | [] => None
  | (k', v') :: rest => if String.eqb k k' then Some v' else get k rest
  end.

(** The pairs of a bucket are in strictly increasing key order. *)
Definition ordered {V} (l : list (string * V)) : Prop :=
  StronglySorted (fun a b => String.compare (fst a) (fst b) = Lt) l.

(** [b.NextSequence()] *)
Definition NextSequence (b : Bucket) : Z * Bucket :=
  let id := (sequence b + 1) mod 2 ^ 64 in
  (id, {| pairs := pairs b; sequence := id |}).

(** [b.Put(key, value)] in a writable transaction. *)
Definition Put (b : Bucket) (key value : string) : Bucket * option error :=
  if (String.length key =? 0)%nat then (b, Some ErrKeyRequired)
  else if MaxKeySize <? Z.of_nat (String.length key)
       then (b, Some ErrKeyTooLarge)
  else if MaxValueSize <? Z.of_nat (String.length value)
       then (b, Some ErrValueTooLarge)
  else ({| pairs := put key value (pairs b); sequence := sequence b |}, None).

(** A cursor: the pairs from the current one on; the empty list once the
    cursor has moved past the last pair. *)
Definition Cursor (V : Type) : Type := list (string * V).

(** [c.Seek(seek)]: the first pair whose key is not below [seek]. *)
Fixpoint Seek {V} (l : list (string * V)) (seek : string) : Cursor V :=
  match l with
  | [] => []
  | (k, v) :: rest => if key_ltb k seek then Seek rest seek else l
  end.

(** [c.First()] *)
Definition First {V} (l : list (string * V)) : Cursor V := l.

(** [c.Next()] *)
Definition Next {V} (c : Cursor V) : Cursor V := tl c.

(** The key [Seek], [First] and [Next] return: [nil] past the end. *)
Definition key {V} (c : Cursor V) : option string :=
  match c with
  | [] => None
  | (k, _) :: _ => Some k
  end.

End Bolt.

(** ** Package [prefix]: the prefix store *)
Module Prefix.
Import Bolt.

(** [itob]: the eight bytes of a [uint64], most significant first. *)
Definition byte_of (v : Z) : ascii := ascii_of_N (Z.to_N (v mod 256)).

Definition itob (v : Z) : string :=
  String (byte_of (v / 2 ^ 56)) (String (byte_of (v / 2 ^ 48))
  (String (byte_of (v / 2 ^ 40)) (String (byte_of (v / 2 ^ 32))
  (String (byte_of (v / 2 ^ 24)) (String (byte_of (v / 2 ^ 16))
  (String (byte_of (v / 2 ^ 8)) (String (byte_of v) EmptyString))))))).

(** The database file behind [PrefixStore]: the buckets [timeseries] and
    [metadata], and the bucket [uuid], which holds one sub-bucket per name
    (the code only ever creates sub-buckets in it). *)
Record PrefixStore := {
  tsBucket : Bucket;
  mdBucket : Bucket;
  uuidBucket : list (string * Bucket)
}.

(** [NewPrefixStore] on a fresh file. *)
Definition NewPrefixStore : PrefixStore :=
  {| tsBucket := emptyBucket; mdBucket := emptyBucket; uuidBucket := [] |}.

(** [store.db.Update(fn)] commits what [fn] did when [fn] returns [nil] and
    rolls it back otherwise; either way it returns what [fn] returned. *)
Definition Update (store : PrefixStore) (fn : PrefixStore -> PrefixStore * option error)
  : PrefixStore * option error :=
  match fn store with
  | (store', None) => (store', None)
  | (_, Some e) => (store, Some e)
  end.

(** [func (store *PrefixStore) AddMetadataURI(uri string) error] *)
Definition AddMetadataURI (store : PrefixStore) (uri : string)
  : PrefixStore * option error :=
  Update store (fun tx =>
    let b := mdBucket tx in
    let '(id, b) := NextSequence b in
    let '(b, e) := Put b (itob id) uri in
    ({| tsBucket := tsBucket tx; mdBucket := b; uuidBucket := uuidBucket tx |}, e)).

(** [func (store *PrefixStore) AddTimeseriesURI(uri string) error] *)
Definition AddTimeseriesURI (store : PrefixStore) (uri : string)
  : PrefixStore * option error :=
  Update store (fun tx =>
    let b := tsBucket tx in
    let '(id, b) := NextSequence b in
    let '(b, e) := Put b uri (itob id) in
    ({| tsBucket := b; mdBucket := mdBucket tx; uuidBucket := uuidBucket tx |}, e)).

(** [b.CreateBucketIfNotExists(name)] on the [uuid] bucket. *)
Definition CreateBucketIfNotExists (subs : list (string * Bucket)) (name : string)
  : list (string * Bucket) * (Bucket + error) :=
  if (String.length name =? 0)%nat then (subs, inr ErrBucketNameRequired)
  else match get name subs with
       | Some ub => (subs, inl ub)
       | None => (put name emptyBucket subs, inl emptyBucket)
       end.

(** [func (store *PrefixStore) AddUUIDURIMapping(uri string, uuid common.UUID) error] *)
Definition AddUUIDURIMapping (store : PrefixStore) (uri : string) (uuid : UUID)
  : PrefixStore * option error :=
  Update store (fun tx =>
    let b := uuidBucket tx in
    match CreateBucketIfNotExists b uri with
    | (_, inr e) => (tx, Some e)
    | (b, inl ub) =>
        let '(id, ub) := NextSequence ub in
        let '(ub, e) := Put ub (itob id) uuid in
        ({| tsBucket := tsBucket tx; mdBucket := mdBucket tx;
            uuidBucket := put uri ub b |}, e)
    end).

(** [[]byte(k)] for the key a cursor returns, [nil] being the empty slice
    for [bytes.HasPrefix] and [string(k)] alike. *)
Definition bytes_of (k : option string) : string := default EmptyString k.

(** [bytes.HasPrefix(k, bpfx)] *)
Definition HasPrefix (k : option string) (bpfx : string) : bool :=
  String.prefix bpfx (bytes_of k).

(** The loop
    [for k, _ := c.Seek(bpfx); bytes.HasPrefix(k, bpfx); k, _ = c.Next()]
    with [c] positioned by [Seek]; [fuel] bounds the number of times the
    condition is evaluated, [None] says the bound was reached. *)
Fixpoint superstrings (fuel : nat) (bpfx : string) (c : Cursor string)
    (matching : list string) : option (list string) :=
  match fuel with
  | O => None
  | S fuel =>
      if HasPrefix (key c) bpfx
      then superstrings fuel bpfx (Next c) (matching ++ [bytes_of (key c)])
      else Some matching
  end.

(** [func (store *PrefixStore) GetMetadataSuperstrings(prefix string) ([]string, error)] *)
Definition GetMetadataSuperstrings (fuel : nat) (store : PrefixStore)
    (prefix : string) : option (list string * option error) :=
  matching ← superstrings fuel prefix (Seek (pairs (mdBucket store)) prefix) [];
  Some (matching, None).

(** [func (store *PrefixStore) GetTimeseriesSuperstrings(prefix string) ([]string, error)] *)
Definition GetTimeseriesSuperstrings (fuel : nat) (store : PrefixStore)
    (prefix : string) : option (list string * option error) :=
  matching ← superstrings fuel prefix (Seek (pairs (tsBucket store)) prefix) [];
  Some (matching, None).

(** The inner loop of [GetUUIDsFromURI]:
    [for k, v := c.First(); k != nil; k, v = c.Next()]. *)
Fixpoint collect (c : Cursor string) (foundUUIDs : gset string) : gset string :=
  match c with
  | [] => foundUUIDs
  | (_, v) :: rest => collect rest ({[v]} ∪ foundUUIDs)
  end.

(** The outer loop [for _, suri := range superURIs]; a missing sub-bucket
    returns from the closure. *)
Fixpoint unionUUIDs (b : list (string * Bucket)) (superURIs : list string)
    (foundUUIDs : gset string) : gset string :=
  match superURIs with
  | [] => foundUUIDs
  | suri :: rest =>
      match get suri b with
      | None => foundUUIDs
      | Some ub => unionUUIDs b rest (collect (First (pairs ub)) foundUUIDs)
      end
  end.

(** [func (store *PrefixStore) GetUUIDsFromURI(uri string) (uuids []common.UUID, err error)];
    the order of [uuids] is that of a Go map iteration, here that of
    [elements]. *)
Definition GetUUIDsFromURI (fuel : nat) (store : PrefixStore) (uri : string)
  : option (list UUID * option error) :=
  '(superURIs, _) ← GetTimeseriesSuperstrings fuel store uri;
  let foundUUIDs := unionUUIDs (uuidBucket store) superURIs ∅ in
  Some (elements foundUUIDs, None).

End Prefix.

(** ** The metadata store adapter ([mongoStore]) *)
Module Mongo.

(** *** The document engine ([gopkg.in/mgo.v2]) as the adapter sees it *)

(** A stored value, by the Go type it has once decoded into an
    [interface{}]: a BSON 32-bit integer decodes to [int], a 64-bit one to
    [int64]. *)
Inductive bson :=
| BInt (n : Z)
| BInt64 (n : Z)
| BString (s : string)
| BObjectId (id : string).

#[export] Instance bson_eq_dec : EqDecision bson.
Proof. solve_decision. Defined.

(** [bson.M] *)
Abbreviation document := (gmap string bson).

(** The collection [metadata] and what the next engine calls answer when
    they fail. *)
Record Collection := {
  docs : list document;
  Count_err : option error;
  One_err : option error;
  All_err : option error
}.

(** A projection document maps field names to [0] or [1].  Any non-zero
    entry makes it an inclusion: the fields set to non-zero are kept, and
    [_id] too unless it is set to [0].  Otherwise the fields set to [0] are
    dropped and all others kept. *)
Definition is_inclusion (sel : gmap string Z) : bool :=
  bool_decide (map_Exists (fun _ v => v <> 0) sel).

Definition keeps (sel : gmap string Z) (field : string) : bool :=
  match sel !! field with
  | Some v => negb (v =? 0)
  | None => negb (is_inclusion sel) || String.eqb field "_id"
  end.

(** [query.Select(sel)] on one document *)
Definition project (sel : gmap string Z) (d : document) : document :=
  filter (fun kv => keeps sel kv.1 = true) d.

(** What the adapter needs of package [common] and of [fmt]: the type
    [common.Dict] of a where clause with its length and the documents the
    selector [where.ToBSON()] matches, the BSON encoding of a UUID, and how
    [%v] prints. *)
Class Env := {
  Dict : Type;
  Dict_len : Dict -> nat;
  matches : Dict -> document -> bool;
  bson_of_UUID : UUID -> bson;
  Sprint_UUID : UUID -> string;
  Sprint_bson : bson -> string
}.

(** What one [GetMetadata] call does: the documents it hands to
    [log.Debug], and the two values it returns. *)
Record GetMetadataRun (MetadataGroup : Type) := {
  gm_logged : list document;
  gm_group : option MetadataGroup;
  gm_err : option error
}.
Arguments gm_logged {MetadataGroup} g.
Arguments gm_group {MetadataGroup} g.
Arguments gm_err {MetadataGroup} g.

Section Adapter.
Context `{D : Decls} `{M : Env}.






(** The projection document [GetMetadata] builds: [{"_id": 0}], then
    [selectTags[tag] = 1] for each tag in turn. *)
Definition selectTags (tags : list string) : gmap string Z :=
  fold_left (fun sel tag => <[tag := 1]> sel) tags {["_id" := 0]}.

(** [m.metadata.Find(whereClause)]: a [nil] selector matches every
    document. *)
Definition staged (m : Collection) (where_ : Dict) : list document :=
  if (Dict_len where_ =? 0)%nat then docs m
  else List.filter (matches where_) (docs m).

(** The documents [staged.Select(selectTags).All(&_results)] fetches. *)
Definition selected (m : Collection) (tags : list string) (where_ : Dict)
  : list document :=
  map (project (selectTags tags)) (staged m where_).

(** [func (m *mongoStore) GetMetadata(VK string, tags []string, where common.Dict)
      ( *common.MetadataGroup, error)] *)
Definition GetMetadata {MetadataGroup : Type} (m : Collection) (VK : string)
    (tags : list string) (where_ : Dict) : GetMetadataRun MetadataGroup :=
  match All_err m with
  | Some e =>
      {| gm_logged := []; gm_group := None;
         gm_err := Some (ErrWrap e "Could not select tags") |}
  | None =>
      let _results := selected m tags where_ in
      {| gm_logged := _results; gm_group := None; gm_err := None |}
  end.

End Adapter.

End Mongo.
Export Mongo.

(** ** Reference instances, used to run the definitions *)

(** The units in the order nanoseconds, microseconds, milliseconds, seconds,
    numbered from 1; a conversion by powers of 1000 that reports an
    overflow; [MaximumTime] set to [48 << 56]. *)
Definition refMultiplier (u : UnitOfTime) : Z :=
  if u =? 1 then 1000000000
  else if u =? 2 then 1000000
  else if u =? 3 then 1000
  else 1.

Definition refConvertTime (t : Z) (from to : UnitOfTime) : Z * option error :=
  if from =? to then (t, None)
  else if to <? from then
    let r := wrap64 (t * (refMultiplier to / refMultiplier from)) in
    if Z.abs r <? Z.abs t then (t, Some (ErrNew "Overflow in converting time"))
    else (r, None)
  else (t / (refMultiplier from / refMultiplier to), None).

#[local] Instance refDecls : Decls := {|
  UOT_NS := 1;
  UOT_S := 4;
  UnitOfTime_of_int := fun n => n mod 2 ^ 64;
  ConvertTime := refConvertTime;
  MaximumTime := 48 * 2 ^ 56
|}.

(** An engine that knows every stream but [gone], cannot be reached for
    [down], and refuses to insert into [full]; lower-casing is that of the
    ASCII letters. *)
Definition refLowerAscii (c : ascii) : ascii :=
  let n := nat_of_ascii c in
  if ((65 <=? n) && (n <=? 90))%nat then ascii_of_nat (n + 32) else c.

Fixpoint refToLower (s : string) : string :=
  match s with
  | EmptyString => EmptyString
  | String c rest => String (refLowerAscii c) (refToLower rest)
  end.

#[local] Instance refEngine : Engine := {|
  float64 := Z;
  Exists := fun s =>
    if String.eqb (stream_UUID s) "gone" then (false, None)
    else if String.eqb (stream_UUID s) "down"
         then (false, Some (ErrNew "deadline exceeded"))
    else (true, None);
  InsertF := fun s _ =>
    if String.eqb (stream_UUID s) "full"
    then Returned (Some (ErrNew "insert failed"))
    else Returned None;
  RawValues := fun _ _ _ => ([], 0, None);
  Annotations := fun _ => (1, None);
  CompareAndSetAnnotation := fun _ _ _ => None;
  ToLower := refToLower
|}.

Definition refIface : btrdbv4Iface := {| streamCache := ∅ |}.

Definition refReadings (uuid : UUID) : Timeseries Z :=
  {| ts_UUID := uuid;
     ts_Records := [{| tr_Time := 1700000000000000000; tr_Unit := 1; tr_Value := 22 |}];
     ts_Generation := 0 |}.

(** Evaluators that find nothing, over a parser that knows four queries:
    [select] (tags), [distinct], [odd] (a select whose parameters are of
    no expected type) and [data] (a range query that fails); anything else
    is a syntax error. *)
#[local] Instance refEvaluators : Evaluators := {|
  DistinctParams := string;
  TagParams := unit;
  DataParams := unit;
  dp_Tag := fun tag => tag;
  IsStatistical := fun _ => false;
  IsWindow := fun _ => false;
  IsChangedRanges := fun _ => false;
  MetadataGroup := string * list string;
  TimeseriesResult := Z;
  StatisticTimeseries := Z;
  ChangedRange := Z;
  DistinctGroup := fun tag results => (tag, results);
  DistinctTag := fun _ _ => Returned (["Soda"], None);
  SelectTags := fun _ _ => Returned ([], None);
  SelectStatisticalData := fun _ _ => Returned ([], None);
  GetChangedRanges := fun _ => Returned ([], None);
  SelectDataRange := fun _ _ => Returned ([], Some (ErrNew "deadline exceeded"));
  SelectDataBefore := fun _ _ => Returned ([], None);
  SelectDataAfter := fun _ _ => Returned ([], None)
|}.

Definition refParsed (t : QueryType) (distinct : bool) (p : Params) : ParsedQuery :=
  {| p_Err := None; p_ErrPos := "0"; p_QueryType := t; p_Distinct := distinct;
     p_GetParams := p; p_Dtype := IN_TYPE |}.

Definition refParse (query : string) : ParsedQuery :=
  if String.eqb query "select" then refParsed SELECT_TYPE false (PTag tt)
  else if String.eqb query "distinct" then refParsed SELECT_TYPE true (PDistinct "Building")
  else if String.eqb query "odd" then refParsed SELECT_TYPE false POther
  else if String.eqb query "data" then refParsed DATA_TYPE false (PData tt)
  else {| p_Err := Some (ErrNew "syntax error"); p_ErrPos := "0";
          p_QueryType := OTHER_QUERY_TYPE; p_Distinct := false;
          p_GetParams := POther; p_Dtype := OTHER_DATA_TYPE |}.

(** A message from [fromVK] with one query payload object. *)
Definition refMessage (fromVK : string) (body : PayloadBody) : SimpleMessage :=
  {| From := fromVK;
     POs := [{| IsGilesKeyValueQuery := true; po_body := body |}] |}.

Definition refQuery (query : string) : PayloadBody :=
  MsgPack (inl {| Query := query; Nonce := 42 |}).

(** A where clause as a list of equalities, UUIDs stored as strings, and a
    collection of three records. *)
#[local] Instance refEnv : Mongo.Env := {|
  Mongo.Dict := list (string * Mongo.bson);
  Mongo.Dict_len := fun w => length w;
  Mongo.matches := fun w d =>
    forallb (fun kv => bool_decide (d !! fst kv = Some (snd kv))) w;
  Mongo.bson_of_UUID := Mongo.BString;
  Mongo.Sprint_UUID := fun u => u;
  Mongo.Sprint_bson := fun _ => "?"
|}.

Definition refDoc (id uuid key val : string) : gmap string Mongo.bson :=
  <["_id" := Mongo.BObjectId id]>
    (<["uuid" := Mongo.BString uuid]>
       (<["Key" := Mongo.BString key]> {["Value" := Mongo.BString val]})).

Definition refCollection : Mongo.Collection :=
  {| Mongo.docs :=
       [<["UnitofTime" := Mongo.BInt 2]> (refDoc "1" "u1" "Building" "Soda");
        refDoc "2" "u2" "Room" "410";
        <["UnitofTime" := Mongo.BInt 0]> (refDoc "3" "u3" "Room" "420")];
     Mongo.Count_err := None; Mongo.One_err := None; Mongo.All_err := None |}.

(** The store of the failing input of C1: two timeseries URIs under [a],
    of which only the second has UUIDs registered. *)
Definition gapStore : Prefix.PrefixStore :=
  let s := fst (Prefix.AddTimeseriesURI Prefix.NewPrefixStore "a/b") in
  let s := fst (Prefix.AddTimeseriesURI s "a/c") in
  fst (Prefix.AddUUIDURIMapping s "a/c" "0123456789abcdef").

(** ** Vocabulary of the further properties *)

(** The [n] low-order bytes of [v], most significant first. *)
Fixpoint big_endian (n : nat) (v : Z) : string :=
  match n with
  | O => EmptyString
  | S n => String (Prefix.byte_of (v / 256 ^ Z.of_nat n)) (big_endian n v)
  end.

(** A bucket written only through [NextSequence] and [Put] of the sequence
    number: the [i]-th value sits under the key [itob i], and the counter
    is the number of values. *)
Definition log_pairs (vals : list string) : list (string * string) :=
  imap (fun i v => (Prefix.itob (Z.of_nat (S i)), v)) vals.

Definition is_log (b : Bolt.Bucket) (vals : list string) : Prop :=
  Bolt.pairs b = log_pairs vals /\ Bolt.sequence b = Z.of_nat (length vals).

(** A value [Put] accepts. *)
Definition storable_value (v : string) : Prop :=
  Z.of_nat (String.length v) <= Bolt.MaxValueSize.

(** A key [Put] accepts. *)
Definition storable_key (k : string) : Prop :=
  k <> EmptyString /\ Z.of_nat (String.length k) <= Bolt.MaxKeySize.

(** Successive calls of [AddMetadataURI] and of [AddTimeseriesURI], each on
    the store the one before left (a failed call leaves the store as it
    was). *)
Definition AddMetadataURIs (store : Prefix.PrefixStore) (uris : list string)
  : Prefix.PrefixStore :=
  fold_left (fun s uri => fst (Prefix.AddMetadataURI s uri)) uris store.

Definition AddTimeseriesURIs (store : Prefix.PrefixStore) (uris : list string)
  : Prefix.PrefixStore :=
  fold_left (fun s uri => fst (Prefix.AddTimeseriesURI s uri)) uris store.

(** The UUID sub-bucket of a URI is a log of the given UUIDs; a URI without
    sub-bucket has none. *)
Definition sub_log (store : Prefix.PrefixStore) (uri : string) (uuids : list string)
  : Prop :=
  match Bolt.get uri (Prefix.uuidBucket store) with
  | Some ub => is_log ub uuids
  | None => uuids = []
  end.

(** The cache maps each UUID to a handle of that UUID. *)
Definition cache_ok (bdb : btrdbv4Iface) : Prop :=
  forall k s, streamCache bdb !! k = Some s -> stream_UUID s = k.

(** A UUID for which [getStream] finds a stream: it is in the cache, or the
    engine answers that the stream exists. *)
Definition found `{E : Engine} (bdb : btrdbv4Iface) (uuid : UUID) : bool :=
  match streamCache bdb !! uuid with
  | Some _ => true
  | None =>
      match Exists {| stream_UUID := uuid |} with
      | (true, None) => true
      | _ => false
      end
  end.

(** Successive calls of [AddReadings], each with the adapter and the
    counters the one before left. *)
Definition AddReadingsAll `{E : Engine} (bdb : btrdbv4Iface) (g : counters)
    (batch : list (Timeseries float64)) : btrdbv4Iface * counters :=
  fold_left (fun st readings =>
               let run := AddReadings (fst st) (snd st) readings in
               (run_bdb run, run_counters run))
            batch (bdb, g).

(** An engine that has become unreachable for every stream. *)
Definition downEngine : Engine := {|
  float64 := Z;
  Exists := fun _ => (false, Some (ErrNew "deadline exceeded"));
  InsertF := fun _ _ => Returned (Some (ErrNew "deadline exceeded"));
  RawValues := fun _ _ _ => ([], 0, Some (ErrNew "deadline exceeded"));
  Annotations := fun _ => (0, Some (ErrNew "deadline exceeded"));
  CompareAndSetAnnotation := fun _ _ _ => Some (ErrNew "deadline exceeded");
  ToLower := refToLower
|}.



(** An annotation value that is a string. *)
Definition is_string (v : value) : bool :=
  match v with VString _ => true | _ => false end.

(** The key under which [AddAnnotations] files an update. *)
Definition lowered `{E : Engine} (kv : string * value) : string := ToLower (fst kv).

(** ** [createStream] and [RegisterStream] of [archiver/btrdb.v4.go] *)
Module Register.

(** [bdb.conn.Create(ctx, uuid, collection, tags, nil)]: the handle and the
    error. *)
Class Creator := {
  Create : UUID -> string -> gmap string string -> Stream * option error
}.

Section CreateStream.
Context `{C : Creator}.

(** [func (bdb *btrdbv4Iface) createStream(streamuuid common.UUID, uri, name,
      unit string) (stream *btrdb.Stream, err error)] *)
Definition createStream (bdb : btrdbv4Iface) (streamuuid : UUID)
    (uri name unit_ : string) : btrdbv4Iface * (Stream * option error) :=
  let collection := uri in
  let '(stream, err) :=
    Create streamuuid collection (<["name" := name]> {["unit" := unit_]}) in
  match err with
  | None =>
      ({| streamCache := <[streamuuid := stream]> (streamCache bdb) |},
       (stream, None))
  | Some e => (bdb, (stream, Some e))
  end.

(** [func (bdb *btrdbv4Iface) RegisterStream(streamuuid common.UUID, uri, name,
      unit string) error] *)
Definition RegisterStream (bdb : btrdbv4Iface) (streamuuid : UUID)
    (uri name unit_ : string) : btrdbv4Iface * option error :=
  let '(bdb, (_, err)) := createStream bdb streamuuid uri name unit_ in
  (bdb, err).

End CreateStream.

End Register.

(** An engine connection that creates every stream but those of the
    collection [full]. *)
Definition refCreator : Register.Creator := {|
  Register.Create := fun uuid collection _ =>
    if String.eqb collection "full"
    then ({| stream_UUID := uuid |}, Some (ErrNew "collection is full"))
    else ({| stream_UUID := uuid |}, None)
|}.

(** The fields [GetMetadata] asks for: every field but [_id] when no tag
    is given, the tags otherwise. *)
Definition wanted (tags : list string) (field : string) : Prop :=
  match tags with
  | [] => field <> "_id"
  | _ => List.In field tags
  end.

#[local] Instance wanted_dec (tags : list string) (field : string) :
  Decision (wanted tags field).
Proof.
  unfold wanted. destruct tags; [apply _ |].
  apply (In_dec string_dec).
Defined.

(** A store in which every stored timeseries URI has its UUID sub-bucket,
    as it is when each new URI is entered with [AddTimeseriesURI] and
    [AddUUIDURIMapping] together. *)
Definition indexed (store : Prefix.PrefixStore) : Prop :=
  Bolt.ordered (Bolt.pairs (Prefix.tsBucket store))
  /\ forall k, List.In k (map fst (Bolt.pairs (Prefix.tsBucket store))) ->
               Bolt.get k (Prefix.uuidBucket store) <> None.

(** Entering a stream: [AddTimeseriesURI] for the URI, then
    [AddUUIDURIMapping] for the URI and the UUID. *)
Definition enter (store : Prefix.PrefixStore) (uri : string) (uuid : UUID)
  : Prefix.PrefixStore :=
  fst (Prefix.AddUUIDURIMapping (fst (Prefix.AddTimeseriesURI store uri)) uri uuid).

(** ** [nearest], [Prev], [Next] and [DeleteData] of [archiver/btrdb.v4.go] *)
Module Reads.

Section Reads.
Context `{D : Decls} `{E : Engine}.

(** [stream.Nearest(ctx, start, 0, backwards)]: the point, the generation
    and the error. *)
Variable Nearest : Stream -> Z -> bool -> RawPoint float64 * Z * option error.

(** [stream.DeleteRange(ctx, start, end)]: the error. *)
Variable DeleteRange : Stream -> Z -> Z -> option error.

(** The loop of [nearest] over the streams. *)
Fixpoint nearestLoop (streams : list Stream) (start : Z) (backwards : bool)
    (results : list (Timeseries float64))
  : list (Timeseries float64) * option error :=
  match streams with
  | [] => (results, None)
  | stream :: rest =>
      let '(point, generation, err) := Nearest stream start backwards in
      match err with
      | Some err =>
          (results, Some (ErrWrap err
             ("Could not get Nearest point for " +:+ stream_UUID stream)))
      | None =>
          let reading := [rawpointToTimeseriesReading point UOT_NS] in
          let ts := {| ts_UUID := stream_UUID stream;
                       ts_Records := reading;
                       ts_Generation := generation |} in
          nearestLoop rest start backwards (results ++ [ts])
      end
  end.

(** [func (bdb *btrdbv4Iface) nearest(uuids []common.UUID, start int64,
      backwards bool) ([]common.Timeseries, error)] *)
Definition nearest (bdb : btrdbv4Iface) (uuids : list UUID) (start : Z)
    (backwards : bool)
  : btrdbv4Iface * (list (Timeseries float64) * option error) :=
  let '(bdb, streams) := uuidsToStreams bdb uuids in
  (bdb, nearestLoop streams start backwards []).


(** [func (bdb *btrdbv4Iface) Next(uuids []common.UUID, afterTime int64)] *)
Definition Next (bdb : btrdbv4Iface) (uuids : list UUID) (afterTime : Z) :=
  nearest bdb uuids afterTime false.

(** The loop of [DeleteData] over the streams: the streams on which
    [DeleteRange] was called, in order, and the error returned. *)
Fixpoint deleteLoop (streams : list Stream) (start end_ : Z)
  : list Stream * option error :=
  match streams with
  | [] => ([], None)
  | stream :: rest =>
      match DeleteRange stream start end_ with
      | Some err =>
          ([stream], Some (ErrWrap err
             ("Could not delete range for stream " +:+ stream_UUID stream)))
      | None =>
          let '(called, err) := deleteLoop rest start end_ in
          (stream :: called, err)
      end
  end.

(** [func (bdb *btrdbv4Iface) DeleteData(uuids []common.UUID, start, end int64) error] *)
Definition DeleteData (bdb : btrdbv4Iface) (uuids : list UUID) (start end_ : Z)
  : btrdbv4Iface * (list Stream * option error) :=
  let '(bdb, streams) := uuidsToStreams bdb uuids in
  (bdb, deleteLoop streams start end_).

End Reads.

End Reads.


(* ===================================================================== *)
(** * Part II: properties                                                 *)
(* ===================================================================== *)


(** ** [ValidTimestamp] *)

Section ValidTimestampProps.
Context `{D : Decls}.

Lemma ValidTimestamp_ns (t : Z) :
  ValidTimestamp t UOT_NS = (t >=? 0) && (t <=? MaximumTime).
Proof.
  unfold ValidTimestamp. rewrite Z.eqb_refl. simpl.
  now rewrite andb_true_r.
Qed.

Lemma ValidTimestamp_other (t : Z) (u : UnitOfTime) :
  u <> UOT_NS ->
  ValidTimestamp t u =
    (fst (ConvertTime t u UOT_NS) >=? 0)
    && (fst (ConvertTime t u UOT_NS) <=? MaximumTime)
    && match snd (ConvertTime t u UOT_NS) with None => true | Some _ => false end.
Proof.
  intros Hu. unfold ValidTimestamp.
  apply Z.eqb_neq in Hu. rewrite Hu. simpl.
  now destruct (ConvertTime t u UOT_NS).
Qed.

End ValidTimestampProps.

(** C8: [ValidTimestamp t u] is [true] exactly when [t], converted to
    nanoseconds, lies in [[0, MaximumTime]] and the conversion succeeds: a
    time given in nanoseconds is its own conversion, any other unit goes
    through [ConvertTime].  With a non-negative [MaximumTime], the times
    [0] and [MaximumTime] in nanoseconds are valid, [-1] and
    [MaximumTime + 1] are not. *)
Theorem ValidTimestamp_spec `{D : Decls} :
  0 <= MaximumTime ->
  (forall t u,
      ValidTimestamp t u = true <->
      (u = UOT_NS /\ 0 <= t <= MaximumTime) \/
      (u <> UOT_NS /\
       exists t', ConvertTime t u UOT_NS = (t', None) /\ 0 <= t' <= MaximumTime))
  /\ ValidTimestamp 0 UOT_NS = true
  /\ ValidTimestamp (-1) UOT_NS = false
  /\ ValidTimestamp MaximumTime UOT_NS = true
  /\ ValidTimestamp (MaximumTime + 1) UOT_NS = false.
Proof.
  intros Hmax. split; [| repeat split].
  - intros t u. destruct (Z.eq_dec u UOT_NS) as [-> | Hu].
    + rewrite ValidTimestamp_ns. split.
      * intros H. left. split; [reflexivity | lia].
      * intros [[_ H] | [H _]]; [lia | congruence].
    + rewrite (ValidTimestamp_other t u Hu).
      destruct (ConvertTime t u UOT_NS) as [t' [e |]] eqn:Hc; simpl; split.
      * intros H. rewrite andb_false_r in H. discriminate.
      * intros [[H _] | [_ (t'' & Heq & _)]]; [congruence | discriminate].
      * intros H. right. split; [assumption |].
        exists t'. split; [reflexivity | lia].
      * intros [[H _] | [_ (t'' & Heq & H)]]; [congruence |].
        injection Heq as <-. lia.
  - rewrite ValidTimestamp_ns. lia.
  - rewrite ValidTimestamp_ns. lia.
  - rewrite ValidTimestamp_ns. lia.
  - rewrite ValidTimestamp_ns. lia.
Qed.

Lemma ValidTimestamp_spec_witness :
  ValidTimestamp (D := refDecls) 1700000000 4 = true
  /\ ValidTimestamp (D := refDecls) (48 * 2 ^ 56 + 1) 1 = false.
Proof.
  pose proof (@ValidTimestamp_spec refDecls ltac:(vm_compute; discriminate))
    as (Hiff & _ & _ & _ & Hlast).
  split.
  - apply Hiff. right. split; [vm_compute; discriminate |].
    exists 1700000000000000000. split; [reflexivity | vm_compute; split; discriminate].
  - exact Hlast.
Defined.

(** ** [AddReadings] and the write counters *)

Lemma wrap64_id (z : Z) : - 2 ^ 63 <= z < 2 ^ 63 -> wrap64 z = z.
Proof.
  intros H. unfold wrap64.
  rewrite Z.mod_small; lia.
Qed.

Lemma wrap64_range (z : Z) : - 2 ^ 63 <= wrap64 z < 2 ^ 63.
Proof.
  unfold wrap64.
  pose proof (Z.mod_pos_bound (z + 2 ^ 63) (2 ^ 64) ltac:(lia)). lia.
Qed.

(** Adding one and taking one away again gives the counter back, also
    across the wrap-around. *)
Lemma wrap64_incr_decr (z : Z) :
  - 2 ^ 63 <= z < 2 ^ 63 -> wrap64 (wrap64 (z + 1) + -1) = z.
Proof.
  intros H. destruct (Z.eq_dec z (2 ^ 63 - 1)) as [-> | Hne].
  - reflexivity.
  - rewrite (wrap64_id (z + 1)) by lia. rewrite wrap64_id; lia.
Qed.

(** The counters [AddReadings] leaves are those its events give. *)
Lemma AddReadings_replay `{E : Engine} bdb g readings :
  run_counters (AddReadings bdb g readings)
  = replay g (run_trace (AddReadings bdb g readings)).
Proof.
  unfold AddReadings.
  destruct (getStream bdb (ts_UUID readings)) as [bdb' [stream [e |]]];
    reflexivity.
Qed.

(** C7, as the code has it: when the stream is found, [currentWrites] is
    incremented before the insert and decremented when the call returns,
    and [completedWrites] is incremented when the call returns, whatever
    the insert did (success, error or panic); when the stream cannot be
    resolved, the call touches neither counter. *)
Theorem AddReadings_counters `{E : Engine} bdb g readings :
  - 2 ^ 63 <= currentWrites g < 2 ^ 63 ->
  let run := AddReadings bdb g readings in
  match getStream bdb (ts_UUID readings) with
  | (_, (stream, None)) =>
      run_trace run =
        [AtomicAddInt64 CurrentWrites 1; CallInsertF stream;
         AtomicAddInt64 CurrentWrites (-1); AtomicAddInt64 CompletedWrites 1]
      /\ run_result run = InsertF stream readings
      /\ currentWrites (run_counters run) = currentWrites g
      /\ completedWrites (run_counters run) = wrap64 (completedWrites g + 1)
  | (_, (_, Some e)) =>
      run_trace run = []
      /\ run_result run =
           Returned (Some (ErrWrap e "AddReadings: could not get stream"))
      /\ run_counters run = g
  end.
Proof.
  intros Hc run. subst run. unfold AddReadings.
  destruct (getStream bdb (ts_UUID readings)) as [bdb' [stream [e |]]].
  - repeat split.
  - repeat split; simpl.
    apply wrap64_incr_decr, Hc.
Qed.

Lemma AddReadings_counters_witness :
  let g := {| currentWrites := 2 ^ 63 - 1; completedWrites := 7 |} in
  currentWrites (run_counters (AddReadings refIface g (refReadings "u1")))
    = 2 ^ 63 - 1
  /\ completedWrites (run_counters (AddReadings refIface g (refReadings "u1")))
    = 8
  /\ run_counters (AddReadings refIface g (refReadings "gone")) = g.
Proof.
  intros g.
  pose proof (@AddReadings_counters refEngine refIface g (refReadings "u1")
                ltac:(vm_compute; split; [discriminate | reflexivity])) as H1.
  pose proof (@AddReadings_counters refEngine refIface g (refReadings "gone")
                ltac:(vm_compute; split; [discriminate | reflexivity])) as H2.
  simpl in H1, H2.
  destruct H1 as (_ & _ & Hcur & Hdone). destruct H2 as (_ & _ & Hsame).
  split; [exact Hcur | split; [rewrite Hdone; reflexivity | exact Hsame]].
Defined.

(** A failed insert is counted as completed: against an engine that
    refuses the insert, [AddReadings] returns the error and still
    increments [completedWrites]. *)
Lemma AddReadings_counts_failed_insert :
  let g := {| currentWrites := 0; completedWrites := 0 |} in
  let run := AddReadings refIface g (refReadings "full") in
  run_result run = Returned (Some (ErrNew "insert failed"))
  /\ completedWrites (run_counters run) = 1
  /\ ~ (run_result run = Returned None \/
        completedWrites (run_counters run) = completedWrites g).
Proof.
  vm_compute. repeat split; try reflexivity.
  intros [H | H]; discriminate.
Qed.

(** ** [listenQueries] *)

Section ListenerProps.
Context `{Ev : Evaluators}.
Variable Parse : string -> ParsedQuery.

Lemma signalURIFor_nonempty (fromVK : string) :
  fromVK <> EmptyString ->
  signalURIFor fromVK = Returned (replySignal fromVK).
Proof.
  intros Hne. unfold signalURIFor, slice_to, replySignal.
  destruct fromVK as [| c rest]; [congruence |].
  cbn [String.length].
  replace (0 <=? Z.of_nat (S (String.length rest)) - 1) with true
    by (symmetry; apply Z.leb_le; lia).
  replace (Z.of_nat (S (String.length rest)) - 1
           <=? Z.of_nat (S (String.length rest))) with true
    by (symmetry; apply Z.leb_le; lia).
  cbn [andb]. cbn -[substring Z.of_nat].
  do 3 f_equal. lia.
Qed.

Lemma signalURIFor_empty :
  signalURIFor EmptyString = Panicked "slice bounds out of range".
Proof. reflexivity. Qed.

(** Every payload of an assembled reply carries the nonce it was given. *)
Lemma assembleReply_nonce (nonce : Z) (r : QueryResult) :
  Forall (fun po => po_nonce po = nonce) (assembleReply nonce r).
Proof.
  unfold assembleReply.
  repeat match goal with
         | |- context [if ?b then _ else _] => destruct b
         end;
    repeat (apply Forall_app; split);
    repeat constructor.
Qed.

Lemma assembleReply_nonempty (nonce : Z) (r : QueryResult) :
  assembleReply nonce r <> [].
Proof.
  unfold assembleReply.
  destruct (mdResult r), (tsResult r), (statsResult r), (changedResult r);
    discriminate.
Qed.

(** A parse error is the error [HandleQuery] returns. *)
Lemma HandleQuery_parse_error (vk query : string) (perr : error) :
  p_Err (Parse query) = Some perr ->
  exists r, HandleQuery Parse vk query = Returned r
            /\ err r = Some (parseErrorf perr query (p_ErrPos (Parse query))).
Proof.
  intros H. unfold HandleQuery. rewrite H. eexists. split; reflexivity.
Qed.

End ListenerProps.

(** C10: a query that evaluates without error and without any result is
    answered by exactly one signal with exactly one payload object, the
    metadata payload of the empty group list under the query's nonce. *)
Theorem empty_result_reply `{Ev : Evaluators} (Parse : string -> ParsedQuery)
    (msg : SimpleMessage) (po : PayloadObject) (query : KeyValueQuery)
    (r : QueryResult) :
  GetOnePODF msg = Some po ->
  decodeQuery po = Some query ->
  From msg <> EmptyString ->
  HandleQuery Parse (From msg) (Query query) = Returned r ->
  err r = None ->
  mdResult r = [] -> tsResult r = [] -> statsResult r = [] ->
  changedResult r = [] ->
  listenQueries Parse msg
  = Returned [(replySignal (From msg),
               [POsFromMetadataGroup (Nonce query) []])].
Proof.
  intros Hpo Hq Hfrom Hr Herr Hmd Hts Hst Hch.
  unfold listenQueries. rewrite Hpo, Hq.
  rewrite (signalURIFor_nonempty _ Hfrom). cbn [mbind outcome_bind bind].
  rewrite Hr. cbn [mbind outcome_bind bind]. rewrite Herr.
  unfold assembleReply. rewrite Hmd, Hts, Hst, Hch. reflexivity.
Qed.

Lemma empty_result_reply_witness :
  listenQueries refParse (refMessage "vk1=" (refQuery "select"))
  = Returned [("vk1,queries", [PO_Metadata 42 []])].
Proof.
  apply (@empty_result_reply refEvaluators refParse
           (refMessage "vk1=" (refQuery "select"))
           {| IsGilesKeyValueQuery := true; po_body := refQuery "select" |}
           {| Query := "select"; Nonce := 42 |}
           noResult); try reflexivity.
  discriminate.
Defined.

(** C5, as the code has it: for a message from a non-empty key whose query
    payload object decodes, an evaluation error (a parse error among them)
    is answered by one signal on the requester's reply signal, carrying
    one [QueryError] with the query string, the query's nonce and the
    error text; a successful evaluation is answered on the same signal by
    a non-empty reply whose payloads all carry the query's nonce.  A
    msgpack payload object that does not decode is dropped: nothing is
    published. *)
Theorem query_reply `{Ev : Evaluators} (Parse : string -> ParsedQuery)
    (msg : SimpleMessage) (po : PayloadObject) :
  GetOnePODF msg = Some po ->
  (forall e, po_body po = MsgPack (inr e) ->
             listenQueries Parse msg = Returned [])
  /\ (forall query r,
         po_body po = MsgPack (inl query) ->
         From msg <> EmptyString ->
         HandleQuery Parse (From msg) (Query query) = Returned r ->
         match err r with
         | Some e =>
             listenQueries Parse msg
             = Returned [(replySignal (From msg),
                          [PO_QueryError {| qe_Query := Query query;
                                            qe_Nonce := Nonce query;
                                            qe_Error := Error e |}])]
         | None =>
             exists reply,
               listenQueries Parse msg
               = Returned [(replySignal (From msg), reply)]
               /\ reply <> []
               /\ Forall (fun po => po_nonce po = Nonce query) reply
         end)
  /\ (forall query perr,
         po_body po = MsgPack (inl query) ->
         From msg <> EmptyString ->
         p_Err (Parse (Query query)) = Some perr ->
         listenQueries Parse msg
         = Returned [(replySignal (From msg),
                      [PO_QueryError
                         {| qe_Query := Query query;
                            qe_Nonce := Nonce query;
                            qe_Error :=
                              Error (parseErrorf perr (Query query)
                                       (p_ErrPos (Parse (Query query)))) |}])]).
Proof.
  intros Hpo. split; [| split].
  - intros e Hbody. unfold listenQueries, decodeQuery.
    now rewrite Hpo, Hbody.
  - intros query r Hbody Hfrom Hr.
    unfold listenQueries, decodeQuery. rewrite Hpo, Hbody.
    rewrite (signalURIFor_nonempty _ Hfrom). cbn [mbind outcome_bind bind].
    rewrite Hr. cbn [mbind outcome_bind bind].
    destruct (err r) as [e |]; [reflexivity |].
    eexists. split; [reflexivity |].
    split; [apply assembleReply_nonempty | apply assembleReply_nonce].
  - intros query perr Hbody Hfrom Hperr.
    destruct (HandleQuery_parse_error Parse (From msg) _ _ Hperr)
      as (r & Hr & Herr).
    unfold listenQueries, decodeQuery. rewrite Hpo, Hbody.
    rewrite (signalURIFor_nonempty _ Hfrom). cbn [mbind outcome_bind bind].
    rewrite Hr. cbn [mbind outcome_bind bind]. now rewrite Herr.
Qed.

Lemma query_reply_witness :
  listenQueries refParse (refMessage "vk1=" (refQuery "data"))
  = Returned [("vk1,queries",
               [PO_QueryError {| qe_Query := "data"; qe_Nonce := 42;
                                 qe_Error := "deadline exceeded" |}])]
  /\ listenQueries refParse
       (refMessage "vk1=" (MsgPack (inr (ErrNew "msgpack: invalid code"))))
     = Returned [].
Proof.
  pose proof (@query_reply refEvaluators refParse
                (refMessage "vk1=" (refQuery "data")) _ eq_refl)
    as (_ & Hdata & _).
  pose proof (@query_reply refEvaluators refParse
                (refMessage "vk1=" (MsgPack (inr (ErrNew "msgpack: invalid code"))))
                _ eq_refl)
    as (Hdrop & _ & _).
  split.
  - refine (Hdata {| Query := "data"; Nonce := 42 |} _ eq_refl _ eq_refl).
    discriminate.
  - exact (Hdrop _ eq_refl).
Defined.

(** A query payload object that is msgpack and does not decode gets no
    answer at all, hence no [QueryError]. *)
Lemma undecodable_query_unanswered :
  let msg := refMessage "vk1=" (MsgPack (inr (ErrNew "msgpack: invalid code"))) in
  listenQueries refParse msg = Returned []
  /\ ~ (exists pubs uri qe,
           listenQueries refParse msg = Returned pubs
           /\ In (uri, [PO_QueryError qe]) pubs).
Proof.
  split; [reflexivity |].
  intros (pubs & uri & qe & Hrun & Hin).
  vm_compute in Hrun. injection Hrun as <-. destruct Hin.
Qed.

(** ** Panics on data *)

Section PanicProps.
Context `{E : Engine}.

(** One value that is not a string makes the annotation loop panic,
    wherever the loop meets it. *)
Lemma annotate_panics (updates : list (string * value)) (annotations : gmap string string) :
  List.Exists (fun kv => forall s, snd kv <> VString s) updates ->
  panics (annotate updates annotations) = true.
Proof.
  intros Hex. revert annotations.
  induction updates as [| [k v] rest IH]; intros annotations.
  - inversion Hex.
  - cbn [annotate]. destruct v as [s | n | b |]; try reflexivity.
    cbn [assert_string mbind outcome_bind bind].
    apply IH. inversion Hex as [? ? Hhd | ? ? Htl]; [| assumption].
    exfalso. exact (Hhd s eq_refl).
Qed.

(** [AddAnnotations] panics once the stream is there and some value is
    not a string. *)
Lemma AddAnnotations_panics (bdb : btrdbv4Iface) (uuid : UUID)
    (updates : list (string * value)) :
  snd (uuidsToStreams bdb [uuid]) <> [] ->
  List.Exists (fun kv => forall s, snd kv <> VString s) updates ->
  panics (AddAnnotations bdb uuid updates) = true.
Proof.
  intros Hs Hex. unfold AddAnnotations.
  destruct (uuidsToStreams bdb [uuid]) as [bdb' [| stream streams]];
    [contradiction |].
  pose proof (annotate_panics updates ∅ Hex) as Hp.
  destruct (annotate updates ∅); [discriminate | reflexivity].
Qed.

(** [GetDataUUID] panics when the UUID has no stream behind it. *)
Lemma GetDataUUID_panics (bdb : btrdbv4Iface) (uuid : UUID) (start end_ : Z)
    (uot : UnitOfTime) :
  snd (snd (getStream bdb uuid)) <> None ->
  GetDataUUID bdb uuid start end_ uot = Panicked "index out of range".
Proof.
  intros Hs. unfold GetDataUUID. cbn [uuidsToStreams].
  destruct (getStream bdb uuid) as [bdb' [stream [e |]]];
    [reflexivity | contradiction].
Qed.

(** The sibling [GetData] loops over the streams it finds and returns no
    series for a UUID without a stream. *)
Lemma GetData_no_stream `{D : Decls} (bdb : btrdbv4Iface) (uuid : UUID)
    (start end_ : Z) :
  snd (snd (getStream bdb uuid)) <> None ->
  snd (GetData bdb [uuid] start end_) = ([], None).
Proof.
  intros Hs. unfold GetData. cbn [uuidsToStreams].
  destruct (getStream bdb uuid) as [bdb' [stream [e |]]];
    [reflexivity | contradiction].
Qed.

End PanicProps.

(** C4 fails on the code: the adapter and the listener panic on data.
    [AddAnnotations] panics on an annotation value that is not a string,
    [GetDataUUID] on a UUID without a stream, [listenQueries] on an empty
    requester key and on a query whose parsed parameters are of an
    unexpected type. *)
Theorem core_panics_on_data :
  AddAnnotations refIface "u1" [("Unit", VInt 42)]
  = Panicked "interface conversion: interface {} is not string"
  /\ GetDataUUID refIface "gone" 0 10 1 = Panicked "index out of range"
  /\ listenQueries refParse (refMessage "" (refQuery "select"))
     = Panicked "slice bounds out of range"
  /\ listenQueries refParse (refMessage "vk1=" (refQuery "odd"))
     = Panicked "interface conversion: not *common.TagParams".
Proof. repeat split. Qed.

(** ** The metadata store adapter *)

Section MongoProps.
Import Mongo.
Context `{D : Decls} `{M : Env}.

Lemma project_lookup (sel : gmap string Z) (d : gmap string bson) (k : string) :
  project sel d !! k = if keeps sel k then d !! k else None.
Proof.
  unfold project. destruct (keeps sel k) eqn:Hk.
  - destruct (d !! k) as [v |] eqn:Hd.
    + apply map_lookup_filter_Some. split; [assumption | exact Hk].
    + apply map_lookup_filter_None. left. assumption.
  - apply map_lookup_filter_None. right. intros v _ Hkeep. cbn in Hkeep.
    congruence.
Qed.




End MongoProps.



Section GetMetadataProps.
Import Mongo.
Context `{M : Env}.

Lemma selectTags_nil : selectTags [] = {["_id" := 0]}.
Proof. reflexivity. Qed.

Lemma fold_selectTags_other (tags : list string) (sel : gmap string Z) (k : string) :
  ~ List.In k tags ->
  fold_left (fun sel tag => <[tag := 1]> sel) tags sel !! k = sel !! k.
Proof.
  revert sel. induction tags as [| tag tags IH]; intros sel Hnin.
  - reflexivity.
  - cbn [fold_left]. rewrite IH by (intros Hin; apply Hnin; now right).
    apply lookup_insert_ne. intros ->. apply Hnin. now left.
Qed.

Lemma fold_selectTags_in (tags : list string) (sel : gmap string Z) (k : string) :
  List.In k tags ->
  fold_left (fun sel tag => <[tag := 1]> sel) tags sel !! k = Some 1.
Proof.
  revert sel. induction tags as [| tag tags IH]; intros sel Hin.
  - destruct Hin.
  - cbn [fold_left].
    destruct (in_dec string_dec k tags) as [Hk | Hk].
    + now apply IH.
    + rewrite fold_selectTags_other by assumption.
      destruct Hin as [-> | Hin]; [apply lookup_insert_eq | contradiction].
Qed.

(** The projection the query asks for leaves [_id] out unless [_id] is one
    of the tags. *)
Lemma selected_without_id (tags : list string) (d : gmap string bson) :
  ~ List.In "_id" tags ->
  project (selectTags tags) d !! "_id" = None.
Proof.
  intros Hnin. rewrite project_lookup. unfold keeps, selectTags.
  rewrite fold_selectTags_other by assumption.
  now rewrite lookup_singleton_eq.
Qed.

(** With the tag [_id] the assignment [selectTags[tag] = 1] overwrites the
    exclusion, and the projection keeps the document id. *)
Lemma selected_with_id (tags : list string) (d : gmap string bson) :
  List.In "_id" tags ->
  project (selectTags tags) d !! "_id" = d !! "_id".
Proof.
  intros Hin. rewrite project_lookup. unfold keeps, selectTags.
  now rewrite fold_selectTags_in by assumption.
Qed.

(** Without tags the projection is the document less its [_id]. *)
Lemma selected_all_fields (d : gmap string bson) :
  project (selectTags []) d = delete "_id" d.
Proof.
  apply map_eq. intros k. rewrite project_lookup, selectTags_nil.
  unfold keeps. destruct (decide (k = "_id")) as [-> | Hk].
  - now rewrite lookup_singleton_eq, lookup_delete_eq.
  - rewrite lookup_singleton_ne by congruence.
    rewrite lookup_delete_ne by congruence.
    replace (is_inclusion {["_id" := 0]}) with false; [reflexivity |].
    symmetry. apply bool_decide_eq_false.
    intros (i & v & Hl & Hv). apply lookup_singleton_Some in Hl as [_ <-].
    now apply Hv.
Qed.

(** Whatever the query fetched, the group [GetMetadata] returns is [nil]. *)
Lemma GetMetadata_group_nil {MetadataGroup : Type} (m : Collection) (VK : string)
    (tags : list string) (where_ : Dict) :
  gm_group (GetMetadata (MetadataGroup := MetadataGroup) m VK tags where_) = None.
Proof. unfold GetMetadata. now destruct (All_err m). Qed.

End GetMetadataProps.

(** C3 fails on the code: [GetMetadata] runs the query, hands the fetched
    documents to the debug log and returns [nil, nil].  On the reference
    collection the query for all fields of the records with key [Room]
    fetches two documents, and the call returns no group and no error. *)
Theorem GetMetadata_drops_results :
  let run := Mongo.GetMetadata (MetadataGroup := list (gmap string Mongo.bson))
               refCollection "vk1=" [] [("Key", Mongo.BString "Room")] in
  Mongo.gm_logged run
  = [delete "_id" (refDoc "2" "u2" "Room" "410");
     delete "_id" (<["UnitofTime" := Mongo.BInt 0]> (refDoc "3" "u3" "Room" "420"))]
  /\ Mongo.gm_group run = None
  /\ Mongo.gm_err run = None.
Proof.
  split; [| split; reflexivity].
  vm_compute. reflexivity.
Qed.

(** ** The prefix store *)

Section PrefixProps.
Import Bolt Prefix.

(** With an empty prefix the scan never leaves its loop: [bytes.HasPrefix]
    holds of every key and of the [nil] the cursor returns past the end. *)
Lemma superstrings_empty_prefix (fuel : nat) (c : Cursor string) (matching : list string) :
  superstrings fuel EmptyString c matching = None.
Proof.
  revert c matching. induction fuel as [| fuel IH]; intros c matching.
  - reflexivity.
  - cbn [superstrings]. unfold HasPrefix.
    destruct (bytes_of (key c)); cbn [String.prefix]; apply IH.
Qed.

(** The sequence number a bucket hands out next is never the current one. *)
Lemma NextSequence_fresh (b : Bucket) :
  0 <= sequence b < 2 ^ 64 ->
  fst (NextSequence b) <> sequence b.
Proof.
  intros Hs. cbn [NextSequence fst].
  destruct (Z.eq_dec (sequence b) (2 ^ 64 - 1)) as [-> | Hne].
  - discriminate.
  - rewrite Z.mod_small by lia. lia.
Qed.

(** A call of [AddMetadataURI] that succeeds moves the sequence counter of
    the [metadata] bucket, whether or not the URI was stored before. *)
Lemma AddMetadataURI_moves_sequence (store : PrefixStore) (uri : string) :
  0 <= sequence (mdBucket store) < 2 ^ 64 ->
  snd (AddMetadataURI store uri) = None ->
  sequence (mdBucket (fst (AddMetadataURI store uri)))
  = (sequence (mdBucket store) + 1) mod 2 ^ 64
  /\ fst (AddMetadataURI store uri) <> store.
Proof.
  intros Hs. unfold AddMetadataURI, Update. cbn [NextSequence].
  unfold Put. cbn [pairs sequence].
  repeat match goal with
         | |- context [if ?b then _ else _] => destruct b
         end; cbn [fst snd]; try discriminate.
  intros _. split; [reflexivity |].
  intros Heq. apply (f_equal (fun s => sequence (mdBucket s))) in Heq.
  cbn in Heq. pose proof (NextSequence_fresh (mdBucket store) Hs) as Hf.
  cbn in Hf. contradiction.
Qed.

End PrefixProps.

(** *** The byte order of keys *)

Section KeyOrder.

Lemma ascii_compare_refl (a : ascii) : Ascii.compare a a = Eq.
Proof. unfold Ascii.compare. apply N.compare_refl. Qed.

Lemma ascii_compare_lt_trans (a b c : ascii) :
  Ascii.compare a b = Lt -> Ascii.compare b c = Lt -> Ascii.compare a c = Lt.
Proof.
  unfold Ascii.compare. rewrite !N.compare_lt_iff. apply N.lt_trans.
Qed.

Lemma string_compare_refl (s : string) : String.compare s s = Eq.
Proof.
  induction s as [| a s IH]; [reflexivity |].
  cbn [String.compare]. now rewrite ascii_compare_refl.
Qed.

Lemma string_compare_lt_trans (a b c : string) :
  String.compare a b = Lt -> String.compare b c = Lt -> String.compare a c = Lt.
Proof.
  revert b c. induction a as [| x a IH]; intros [| y b] [| z c];
    cbn [String.compare]; try discriminate; try reflexivity.
  destruct (Ascii.compare x y) eqn:Hxy; try discriminate;
    destruct (Ascii.compare y z) eqn:Hyz; try discriminate; intros Hab Hbc.
  - apply Ascii.compare_eq_iff in Hxy, Hyz. subst.
    rewrite ascii_compare_refl. eapply IH; eassumption.
  - apply Ascii.compare_eq_iff in Hxy. subst. now rewrite Hyz.
  - apply Ascii.compare_eq_iff in Hyz. subst. now rewrite Hxy.
  - now rewrite (ascii_compare_lt_trans x y z Hxy Hyz).
Qed.

Lemma string_compare_le_lt_trans (a b c : string) :
  String.compare a b <> Gt -> String.compare b c = Lt -> String.compare a c = Lt.
Proof.
  intros Hab Hbc. destruct (String.compare a b) eqn:H.
  - apply String.compare_eq_iff in H. now subst.
  - eapply string_compare_lt_trans; eassumption.
  - congruence.
Qed.

Lemma string_compare_not_lt (a b : string) :
  String.compare a b <> Lt -> String.compare b a <> Gt.
Proof.
  rewrite (String.compare_antisym a b).
  destruct (String.compare b a); cbn; congruence.
Qed.

(** A string is not below its prefixes. *)
Lemma prefix_not_below (p k : string) :
  String.prefix p k = true -> String.compare p k <> Gt.
Proof.
  revert k. induction p as [| a p IH]; intros [| b k]; cbn; try congruence.
  destruct (ascii_dec a b) as [-> | _]; [| discriminate].
  rewrite ascii_compare_refl. apply IH.
Qed.

Lemma below_not_prefixed (p k : string) :
  String.ltb k p = true -> String.prefix p k = false.
Proof.
  unfold String.ltb. intros Hlt.
  destruct (String.prefix p k) eqn:Hp; [| reflexivity].
  apply prefix_not_below in Hp.
  rewrite (String.compare_antisym p k) in Hp.
  destruct (String.compare k p); cbn in *; congruence.
Qed.

(** The strings with prefix [p] form an interval that starts at [p]: a key
    between [p] and a key with prefix [p] has the prefix too. *)
Lemma prefix_between (p k k' : string) :
  String.compare p k <> Gt -> String.compare k k' = Lt ->
  String.prefix p k' = true -> String.prefix p k = true.
Proof.
  revert k k'. induction p as [| a p IH]; intros k k'.
  - now destruct k.
  - destruct k' as [| c k']; [discriminate |].
    destruct k as [| b k]; [cbn; congruence |].
    cbn [String.prefix String.compare].
    destruct (ascii_dec a c) as [<- | _]; [| discriminate].
    pose proof (Ascii.compare_antisym a b) as Hanti.
    destruct (Ascii.compare a b) eqn:Hab;
      destruct (Ascii.compare b a) eqn:Hba; cbn in Hanti;
      try discriminate; try congruence.
    apply Ascii.compare_eq_iff in Hab. subst b.
    destruct (ascii_dec a a); [| congruence].
    apply IH.
Qed.

End KeyOrder.

(** *** The prefix scan over an ordered bucket *)

Section ScanProps.
Import Bolt Prefix.
Context {V : Type}.

Lemma ordered_tail (kv : string * V) (l : list (string * V)) :
  ordered (kv :: l) -> ordered l.
Proof. intros H. now inversion H. Qed.

Lemma ordered_head (kv : string * V) (l : list (string * V)) :
  ordered (kv :: l) ->
  Forall (fun kv' => String.compare (fst kv) (fst kv') = Lt) l.
Proof. intros H. now inversion H. Qed.

Lemma filter_none {A} (f : A -> bool) (l : list A) :
  Forall (fun x => f x = false) l -> List.filter f l = [].
Proof.
  induction 1 as [| x l Hx _ IH]; [reflexivity |].
  cbn. now rewrite Hx.
Qed.

(** [put] keeps the order and adds exactly its key. *)
Lemma put_keys (k : string) (v : V) (l : list (string * V)) (k' : string) :
  List.In k' (map fst (put k v l)) <-> k' = k \/ List.In k' (map fst l).
Proof.
  induction l as [| [k0 v0] l IH]; cbn [put map fst List.In].
  - intuition.
  - destruct (String.compare k k0) eqn:Hc; cbn [map fst List.In].
    + apply String.compare_eq_iff in Hc. subst. intuition.
    + intuition.
    + rewrite IH. intuition.
Qed.

Lemma put_ordered (k : string) (v : V) (l : list (string * V)) :
  ordered l -> ordered (put k v l).
Proof.
  unfold ordered. induction l as [| [k0 v0] l IH]; intros Hl; cbn [put].
  - repeat constructor.
  - pose proof (ordered_head _ _ Hl) as Hhd.
    pose proof (ordered_tail _ _ Hl) as Htl.
    destruct (String.compare k k0) eqn:Hc.
    + apply String.compare_eq_iff in Hc. subst k0.
      constructor; assumption.
    + constructor; [assumption |]. constructor; [exact Hc |].
      eapply List.Forall_impl; [| exact Hhd]. cbn. intros kv Hkv.
      eapply string_compare_lt_trans; eassumption.
    + constructor; [now apply IH |].
      apply List.Forall_forall. intros [k1 v1] Hin. cbn [fst].
      assert (Hk1 : List.In k1 (map fst (put k v l)))
        by (change k1 with (fst (k1, v1)); now apply in_map).
      apply put_keys in Hk1 as [-> | Hk1].
      * rewrite String.compare_antisym, Hc. reflexivity.
      * apply in_map_iff in Hk1 as ([k2 v2] & Heq & Hin2). cbn in Heq. subst k2.
        rewrite List.Forall_forall in Hhd. exact (Hhd _ Hin2).
Qed.

(** Where [Seek] stops: on a suffix of the bucket whose keys are not below
    the sought one, having skipped only keys without the prefix. *)
Lemma Seek_spec (l : list (string * V)) (p : string) :
  ordered l ->
  ordered (Seek l p)
  /\ Forall (fun kv => String.compare p (fst kv) <> Gt) (Seek l p)
  /\ List.filter (String.prefix p) (map fst (Seek l p))
     = List.filter (String.prefix p) (map fst l)
  /\ (length (Seek l p) <= length l)%nat.
Proof.
  induction l as [| [k v] l IH]; intros Hl; cbn [Seek].
  - repeat split; constructor.
  - unfold key_ltb. destruct (String.ltb k p) eqn:Hlt.
    + destruct (IH (ordered_tail _ _ Hl)) as (Ho & Hge & Hf & Hlen).
      repeat split; [assumption | assumption | | cbn [length]; lia].
      cbn [map fst List.filter]. now rewrite (below_not_prefixed p k Hlt).
    + assert (Hpk : String.compare p k <> Gt).
      { apply string_compare_not_lt. unfold String.ltb in Hlt.
        destruct (String.compare k p); congruence. }
      repeat split; [assumption | | lia].
      constructor; [exact Hpk |].
      eapply List.Forall_impl; [| exact (ordered_head _ _ Hl)]. cbn.
      intros kv Hkv. rewrite (string_compare_le_lt_trans p k _ Hpk Hkv).
      discriminate.
Qed.

End ScanProps.

Section SuperstringsProps.
Import Bolt Prefix.

(** The loop, from where [Seek] left the cursor: with a non-empty prefix
    and a cursor over ordered keys none of which is below the prefix, it
    ends within one test more than there are pairs left and has collected
    the keys with the prefix. *)
Lemma superstrings_spec (p : string) (c : list (string * string)) :
  p <> EmptyString ->
  ordered c ->
  Forall (fun kv => String.compare p (fst kv) <> Gt) c ->
  forall fuel matching,
    (length c < fuel)%nat ->
    superstrings fuel p c matching
    = Some (matching ++ List.filter (String.prefix p) (map fst c)).
Proof.
  intros Hp. induction c as [| [k v] c IH]; intros Ho Hge fuel matching Hfuel.
  - destruct fuel as [| fuel]; [cbn in Hfuel; lia |].
    cbn. unfold HasPrefix. cbn.
    destruct p; [congruence |]. cbn. now rewrite app_nil_r.
  - destruct fuel as [| fuel]; [cbn in Hfuel; lia |].
    cbn [superstrings Next tl map fst List.filter]. unfold HasPrefix.
    change (bytes_of (key ((k, v) :: c))) with k.
    destruct (String.prefix p k) eqn:Hpk.
    + rewrite IH.
      * now rewrite <- app_assoc.
      * exact (ordered_tail _ _ Ho).
      * now inversion Hge.
      * cbn [length] in Hfuel. lia.
    + rewrite (filter_none (String.prefix p) (map fst c)); [now rewrite app_nil_r |].
      apply List.Forall_forall. intros k' Hin.
      apply in_map_iff in Hin as ([k2 v2] & Heq & Hin). cbn in Heq. subst k2.
      pose proof (ordered_head _ _ Ho) as Hhd.
      rewrite List.Forall_forall in Hhd. specialize (Hhd _ Hin). cbn in Hhd.
      destruct (String.prefix p k') eqn:Hpk'; [| reflexivity].
      rewrite (prefix_between p k k') in Hpk; [discriminate | | assumption
                                                | assumption].
      now inversion Hge.
Qed.

(** [GetTimeseriesSuperstrings] is right: over an ordered bucket and for a
    non-empty prefix it ends and returns the stored timeseries URIs that
    have the prefix, in key order. *)
Lemma GetTimeseriesSuperstrings_spec (store : PrefixStore) (prefix : string) :
  prefix <> EmptyString ->
  ordered (pairs (tsBucket store)) ->
  GetTimeseriesSuperstrings (S (length (pairs (tsBucket store)))) store prefix
  = Some (List.filter (String.prefix prefix) (map fst (pairs (tsBucket store))),
          None).
Proof.
  intros Hp Ho. unfold GetTimeseriesSuperstrings.
  destruct (Seek_spec (pairs (tsBucket store)) prefix Ho)
    as (Hso & Hge & Hf & Hlen).
  rewrite (superstrings_spec prefix _ Hp Hso Hge) by lia.
  cbn. now rewrite Hf.
Qed.

(** [AddTimeseriesURI] keeps the bucket ordered and stores the URI as a
    key; a URI that is already a key adds none. *)
Lemma AddTimeseriesURI_spec (store : PrefixStore) (uri : string) :
  ordered (pairs (tsBucket store)) ->
  ordered (pairs (tsBucket (fst (AddTimeseriesURI store uri))))
  /\ (snd (AddTimeseriesURI store uri) = None ->
      forall k, List.In k (map fst (pairs (tsBucket (fst (AddTimeseriesURI store uri)))))
                <-> k = uri \/ List.In k (map fst (pairs (tsBucket store)))).
Proof.
  intros Ho. unfold AddTimeseriesURI, Update. cbn [NextSequence].
  unfold Put. cbn [pairs sequence].
  repeat match goal with
         | |- context [if ?b then _ else _] => destruct b
         end; cbn [fst snd tsBucket pairs];
    (split; [try assumption | try discriminate]).
  - now apply put_ordered.
  - intros _ k. apply put_keys.
Qed.

(** The inner loop adds the values of the sub-bucket, no more. *)
Lemma collect_spec (c : Cursor string) (found : gset string) (v : string) :
  v ∈ collect c found <-> v ∈ found \/ List.In v (map snd c).
Proof.
  revert found. induction c as [| [k w] c IH]; intros found; cbn [collect map snd List.In].
  - intuition.
  - rewrite IH. rewrite elem_of_union, elem_of_singleton. intuition.
Qed.

(** A superstring without a sub-bucket ends the union there: what the
    later superstrings hold is not looked at. *)
Lemma unionUUIDs_stops (b : list (string * Bucket)) (suri : string)
    (rest : list string) (found : gset string) :
  get suri b = None ->
  unionUUIDs b (suri :: rest) found = found.
Proof. intros H. cbn [unionUUIDs]. now rewrite H. Qed.

(** When every superstring has its sub-bucket, the union is complete. *)
Lemma unionUUIDs_complete (b : list (string * Bucket)) (superURIs : list string)
    (found : gset string) (v : string) :
  Forall (fun suri => get suri b <> None) superURIs ->
  v ∈ unionUUIDs b superURIs found
  <-> v ∈ found
      \/ exists suri ub, List.In suri superURIs /\ get suri b = Some ub
                         /\ List.In v (map snd (pairs ub)).
Proof.
  intros Hall. revert found.
  induction Hall as [| suri rest Hs _ IH]; intros found; cbn [unionUUIDs].
  - split; [now left | intros [H | (s & ub & [] & _)]; exact H].
  - destruct (get suri b) as [ub |] eqn:Hg; [| congruence].
    rewrite IH, collect_spec. unfold First. split.
    + intros [[H | H] | (s & ub' & Hin & Hg' & Hv)].
      * now left.
      * right. exists suri, ub. split; [now left | now split].
      * right. exists s, ub'. split; [now right | now split].
    + intros [H | (s & ub' & [<- | Hin] & Hg' & Hv)].
      * left. now left.
      * left. right. congruence.
      * right. exists s, ub'. now repeat split.
Qed.

End SuperstringsProps.

(** C2 fails on the code: [AddMetadataURI] stores the URI as the value
    under the 8-byte sequence number, and [GetMetadataSuperstrings] scans
    the keys.  After [AddMetadataURI "a/b"] the scan for [a] finds nothing,
    while the same steps on the timeseries bucket find [a/b]; a scan that
    does match returns the sequence number, not the URI. *)
Theorem GetMetadataSuperstrings_misses_uri :
  let store := fst (Prefix.AddMetadataURI Prefix.NewPrefixStore "a/b") in
  let sibling := fst (Prefix.AddTimeseriesURI Prefix.NewPrefixStore "a/b") in
  Bolt.pairs (Prefix.mdBucket store) = [(Prefix.itob 1, "a/b")]
  /\ (forall fuel, Prefix.GetMetadataSuperstrings (S fuel) store "a"
                   = Some ([], None))
  /\ Prefix.GetTimeseriesSuperstrings 2 sibling "a" = Some (["a/b"], None)
  /\ Prefix.GetMetadataSuperstrings 2 store (String "000"%char EmptyString)
     = Some ([Prefix.itob 1], None).
Proof.
  repeat split.
Qed.

(** C9 fails on the code: every [AddMetadataURI] writes a new entry.  Adding
    [a/b] to a store that already holds it leaves two entries for it and a
    different persisted bucket, while the timeseries bucket, keyed by the
    URI, still has the one key after the same two steps. *)
Theorem AddMetadataURI_not_idempotent :
  let once := fst (Prefix.AddMetadataURI Prefix.NewPrefixStore "a/b") in
  let twice := fst (Prefix.AddMetadataURI once "a/b") in
  let sibling :=
    fst (Prefix.AddTimeseriesURI
           (fst (Prefix.AddTimeseriesURI Prefix.NewPrefixStore "a/b")) "a/b") in
  Bolt.pairs (Prefix.mdBucket once) = [(Prefix.itob 1, "a/b")]
  /\ snd (Prefix.AddMetadataURI once "a/b") = None
  /\ Bolt.pairs (Prefix.mdBucket twice)
     = [(Prefix.itob 1, "a/b"); (Prefix.itob 2, "a/b")]
  /\ twice <> once
  /\ map fst (Bolt.pairs (Prefix.tsBucket sibling)) = ["a/b"].
Proof.
  split; [reflexivity | split; [reflexivity | split; [reflexivity | split]]].
  - intros Heq. discriminate Heq.
  - reflexivity.
Qed.

(** C1 fails on the code: the loop over the superstrings returns at the
    first one without a UUID sub-bucket.  In [gapStore] the superstrings of
    [a] are [a/b] and [a/c], the UUID of [a/c] is on record, and
    [GetUUIDsFromURI "a"] returns no UUID. *)
Theorem GetUUIDsFromURI_stops_at_gap :
  Prefix.GetTimeseriesSuperstrings 3 gapStore "a" = Some (["a/b"; "a/c"], None)
  /\ Bolt.get "a/b" (Prefix.uuidBucket gapStore) = None
  /\ option_map Bolt.pairs (Bolt.get "a/c" (Prefix.uuidBucket gapStore))
     = Some [(Prefix.itob 1, "0123456789abcdef")]
  /\ Prefix.GetUUIDsFromURI 3 gapStore "a" = Some ([], None)
  /\ Prefix.GetUUIDsFromURI 2 gapStore "a/c"
     = Some (["0123456789abcdef"], None).
Proof.
  repeat split; vm_compute; reflexivity.
Qed.

(* ===================================================================== *)
(** * Part III: further properties of the code                            *)
(* ===================================================================== *)

(** ** [itob] and the order of keys *)

Section ItobProps.
Import Bolt Prefix.

Lemma itob_big_endian (v : Z) : itob v = big_endian 8 v.
Proof.
  unfold itob. cbn [big_endian].
  repeat (f_equal; [reflexivity |]).
  f_equal. cbn. now rewrite Z.div_1_r.
Qed.

Lemma byte_of_compare (x y : Z) :
  Ascii.compare (byte_of x) (byte_of y) = (x mod 256 ?= y mod 256).
Proof.
  unfold Ascii.compare, byte_of.
  pose proof (Z.mod_pos_bound x 256 ltac:(lia)) as Hx.
  pose proof (Z.mod_pos_bound y 256 ltac:(lia)) as Hy.
  rewrite !N_ascii_embedding by lia.
  apply Z2N.inj_compare; lia.
Qed.

Lemma big_endian_compare (n : nat) (a b : Z) :
  String.compare (big_endian n a) (big_endian n b)
  = (a mod 256 ^ Z.of_nat n ?= b mod 256 ^ Z.of_nat n).
Proof.
  induction n as [| n IH].
  - cbn. now rewrite !Z.mod_1_r.
  - cbn [big_endian String.compare]. rewrite byte_of_compare, IH.
    set (M := 256 ^ Z.of_nat n).
    assert (HM : 0 < M) by (apply Z.pow_pos_nonneg; lia).
    replace (256 ^ Z.of_nat (S n)) with (M * 256)
      by (rewrite Nat2Z.inj_succ, Z.pow_succ_r by lia; unfold M; lia).
    rewrite !(Z.rem_mul_r _ M 256) by lia.
    pose proof (Z.mod_pos_bound (a / M) 256 ltac:(lia)) as Hha.
    pose proof (Z.mod_pos_bound (b / M) 256 ltac:(lia)) as Hhb.
    pose proof (Z.mod_pos_bound a M HM) as Hla.
    pose proof (Z.mod_pos_bound b M HM) as Hlb.
    destruct (Z.compare_spec ((a / M) mod 256) ((b / M) mod 256)) as [He | Hl | Hg].
    + rewrite He.
      destruct (Z.compare_spec (a mod M) (b mod M)) as [He' | Hl' | Hg'];
        symmetry.
      * apply Z.compare_eq_iff. lia.
      * apply Z.compare_lt_iff. lia.
      * apply Z.compare_gt_iff. lia.
    + symmetry. apply Z.compare_lt_iff. nia.
    + symmetry. apply Z.compare_gt_iff. nia.
Qed.

Lemma itob_compare (a b : Z) :
  0 <= a < 2 ^ 64 -> 0 <= b < 2 ^ 64 ->
  String.compare (itob a) (itob b) = (a ?= b).
Proof.
  intros Ha Hb. rewrite !itob_big_endian, big_endian_compare.
  change (256 ^ Z.of_nat 8) with (2 ^ 64).
  now rewrite !Z.mod_small by lia.
Qed.

End ItobProps.

(** X1: on 64-bit unsigned numbers [itob] is order-preserving: the byte
    order of the keys [itob a] and [itob b] is the order of [a] and [b].
    In particular [itob] is injective there, and a bucket keyed by its
    sequence numbers iterates in the order of insertion. *)
Theorem itob_order (a b : Z) :
  0 <= a < 2 ^ 64 -> 0 <= b < 2 ^ 64 ->
  String.compare (Prefix.itob a) (Prefix.itob b) = (a ?= b)
  /\ (Prefix.itob a = Prefix.itob b -> a = b).
Proof.
  intros Ha Hb.
  pose proof (itob_compare a b Ha Hb) as Hc.
  split; [exact Hc |].
  intros Heq. rewrite Heq, string_compare_refl in Hc.
  symmetry in Hc. now apply Z.compare_eq_iff in Hc.
Qed.

Lemma itob_order_witness :
  String.compare (Prefix.itob 255) (Prefix.itob 256) = Lt.
Proof.
  exact (proj1 (itob_order 255 256 ltac:(lia) ltac:(lia))).
Defined.

(** ** Buckets keyed by their sequence numbers *)

Section LogProps.
Import Bolt Prefix.

Lemma put_at_end {V} (k : string) (v : V) (l : list (string * V)) :
  List.Forall (fun kv => String.compare (fst kv) k = Lt) l ->
  put k v l = l ++ [(k, v)].
Proof.
  induction 1 as [| [k0 v0] l Hk _ IH]; [reflexivity |].
  cbn [put]. cbn in Hk. rewrite String.compare_antisym, Hk. cbn.
  now rewrite IH.
Qed.

Lemma get_put_same {V} (k : string) (v : V) (l : list (string * V)) :
  get k (put k v l) = Some v.
Proof.
  induction l as [| [k0 v0] l IH]; cbn [put get].
  - now rewrite String.eqb_refl.
  - destruct (String.compare k k0) eqn:Hc; cbn [get].
    + now rewrite String.eqb_refl.
    + now rewrite String.eqb_refl.
    + destruct (String.eqb k k0) eqn:He; [| exact IH].
      apply String.eqb_eq in He. subst.
      rewrite string_compare_refl in Hc. discriminate.
Qed.

Lemma get_put_other {V} (k k' : string) (v : V) (l : list (string * V)) :
  k' <> k -> get k' (put k v l) = get k' l.
Proof.
  intros Hne. apply String.eqb_neq in Hne.
  induction l as [| [k0 v0] l IH]; cbn [put get].
  - now rewrite Hne.
  - destruct (String.compare k k0) eqn:Hc; cbn [get].
    + apply String.compare_eq_iff in Hc. subst k0. now rewrite Hne.
    + now rewrite Hne.
    + now rewrite IH.
Qed.

Lemma log_pairs_snoc (vals : list string) (v : string) :
  log_pairs (vals ++ [v])
  = log_pairs vals ++ [(itob (Z.of_nat (S (length vals))), v)].
Proof.
  unfold log_pairs. rewrite imap_app. cbn. now rewrite Nat.add_0_r.
Qed.

Lemma log_pairs_values (vals : list string) : map snd (log_pairs vals) = vals.
Proof.
  induction vals as [| v vals IH] using rev_ind; [reflexivity |].
  rewrite log_pairs_snoc, map_app, IH. reflexivity.
Qed.

Lemma log_pairs_below (vals : list string) (n : Z) :
  Z.of_nat (length vals) < n < 2 ^ 64 ->
  List.Forall (fun kv => String.compare (fst kv) (itob n) = Lt) (log_pairs vals).
Proof.
  intros Hn. induction vals as [| v vals IH] using rev_ind; [constructor |].
  rewrite length_app in Hn. cbn [length] in Hn.
  rewrite log_pairs_snoc. apply List.Forall_app. split.
  - apply IH. lia.
  - constructor; [| constructor]. cbn [fst].
    rewrite itob_compare by lia. apply Z.compare_lt_iff. lia.
Qed.

(** Taking the next sequence number and putting a value under it appends
    the value. *)
Lemma log_append (b : Bucket) (vals : list string) (v : string) :
  is_log b vals ->
  Z.of_nat (length vals) + 1 < 2 ^ 64 ->
  storable_value v ->
  exists b',
    Put (snd (NextSequence b)) (itob (fst (NextSequence b))) v = (b', None)
    /\ is_log b' (vals ++ [v]).
Proof.
  intros [Hp Hs] Hlen Hv. unfold NextSequence. cbn [fst snd].
  rewrite Hs, Z.mod_small by lia.
  unfold Put. cbn [pairs sequence].
  change (String.length (itob (Z.of_nat (length vals) + 1))) with 8%nat.
  cbn [Nat.eqb]. change (MaxKeySize <? Z.of_nat 8) with false. cbn match.
  unfold storable_value in Hv.
  replace (MaxValueSize <? Z.of_nat (String.length v)) with false
    by (symmetry; apply Z.ltb_ge; exact Hv).
  eexists. split; [reflexivity |]. split; cbn [pairs sequence].
  - rewrite Hp, put_at_end by (apply log_pairs_below; lia).
    rewrite log_pairs_snoc.
    now replace (Z.of_nat (length vals) + 1) with (Z.of_nat (S (length vals)))
      by lia.
  - rewrite length_app. cbn [length]. lia.
Qed.

Lemma AddMetadataURI_log (store : PrefixStore) (vals : list string) (uri : string) :
  is_log (mdBucket store) vals ->
  Z.of_nat (length vals) + 1 < 2 ^ 64 ->
  storable_value uri ->
  snd (AddMetadataURI store uri) = None
  /\ is_log (mdBucket (fst (AddMetadataURI store uri))) (vals ++ [uri])
  /\ tsBucket (fst (AddMetadataURI store uri)) = tsBucket store
  /\ uuidBucket (fst (AddMetadataURI store uri)) = uuidBucket store.
Proof.
  intros Hlog Hlen Hv.
  destruct (log_append _ _ _ Hlog Hlen Hv) as (b' & Hput & Hlog').
  unfold AddMetadataURI, Update.
  destruct (NextSequence (mdBucket store)) as [id b1] eqn:Hn.
  cbn [fst snd] in Hput. rewrite Hput. cbn.
  split; [reflexivity | split; [exact Hlog' | split; reflexivity]].
Qed.

Lemma AddMetadataURIs_log (store : PrefixStore) (vals uris : list string) :
  is_log (mdBucket store) vals ->
  Z.of_nat (length vals + length uris) < 2 ^ 64 ->
  List.Forall storable_value uris ->
  is_log (mdBucket (AddMetadataURIs store uris)) (vals ++ uris).
Proof.
  revert store vals. induction uris as [| uri uris IH]; intros store vals Hlog Hlen Hv.
  - now rewrite app_nil_r.
  - inversion Hv as [| ? ? Hv1 Hv2]; subst.
    cbn [AddMetadataURIs fold_left]. cbn [length] in Hlen.
    destruct (AddMetadataURI_log store vals uri Hlog ltac:(lia) Hv1)
      as (_ & Hlog' & _).
    change (fold_left _ uris ?s) with (AddMetadataURIs s uris).
    replace (vals ++ uri :: uris) with ((vals ++ [uri]) ++ uris)
      by now rewrite <- app_assoc.
    apply IH; [exact Hlog' | | exact Hv2].
    rewrite length_app. cbn [length]. lia.
Qed.

End LogProps.

(** X2: the metadata bucket is an append-only log.  After any sequence of
    [AddMetadataURI] calls on a fresh store (fewer than 2^64, with values
    of a size [Put] accepts) the bucket holds the URIs as its values, in
    the order of the calls and repeated as often as they were added, the
    [i]-th under the key [itob i]. *)
Theorem metadata_bucket_is_log (uris : list string) :
  Z.of_nat (length uris) < 2 ^ 64 ->
  List.Forall storable_value uris ->
  let store := AddMetadataURIs Prefix.NewPrefixStore uris in
  Bolt.pairs (Prefix.mdBucket store) = log_pairs uris
  /\ map snd (Bolt.pairs (Prefix.mdBucket store)) = uris
  /\ Bolt.sequence (Prefix.mdBucket store) = Z.of_nat (length uris).
Proof.
  intros Hlen Hv store.
  destruct (AddMetadataURIs_log Prefix.NewPrefixStore [] uris) as [Hp Hs];
    [split; reflexivity | cbn [length]; lia | exact Hv |].
  cbn [app] in Hp, Hs. fold store in Hp, Hs.
  split; [exact Hp | split; [| exact Hs]].
  rewrite Hp. apply log_pairs_values.
Qed.

Lemma metadata_bucket_is_log_witness :
  map snd (Bolt.pairs (Prefix.mdBucket
             (AddMetadataURIs Prefix.NewPrefixStore ["b/c"; "a"; "b/c"])))
  = ["b/c"; "a"; "b/c"].
Proof.
  refine (proj1 (proj2 (metadata_bucket_is_log ["b/c"; "a"; "b/c"] _ _))).
  - vm_compute. reflexivity.
  - repeat (apply List.Forall_cons; [vm_compute; discriminate |]).
    apply List.Forall_nil.
Defined.

(** ** The UUID buckets *)

Section UUIDBucketProps.
Import Bolt Prefix.

Lemma nonempty_length (s : string) :
  s <> EmptyString -> (String.length s =? 0)%nat = false.
Proof. destruct s; [congruence | reflexivity]. Qed.

Lemma empty_log : is_log emptyBucket [].
Proof. split; reflexivity. Qed.

End UUIDBucketProps.

(** X3: [AddUUIDURIMapping] appends.  For a non-empty URI and a UUID of a
    size [Put] accepts, the call succeeds, the UUIDs recorded for the URI
    are the earlier ones followed by the new one (a UUID added twice is
    recorded twice), and nothing else in the store changes. *)
Theorem AddUUIDURIMapping_appends (store : Prefix.PrefixStore) (uri : string)
    (uuid : UUID) (uuids : list string) :
  uri <> EmptyString ->
  storable_value uuid ->
  sub_log store uri uuids ->
  Z.of_nat (length uuids) + 1 < 2 ^ 64 ->
  let store' := fst (Prefix.AddUUIDURIMapping store uri uuid) in
  snd (Prefix.AddUUIDURIMapping store uri uuid) = None
  /\ sub_log store' uri (uuids ++ [uuid])
  /\ (forall other, other <> uri ->
        Bolt.get other (Prefix.uuidBucket store')
        = Bolt.get other (Prefix.uuidBucket store))
  /\ Prefix.tsBucket store' = Prefix.tsBucket store
  /\ Prefix.mdBucket store' = Prefix.mdBucket store.
Proof.
  intros Huri Hv Hlog Hlen store'. subst store'.
  unfold Prefix.AddUUIDURIMapping, Prefix.Update, Prefix.CreateBucketIfNotExists.
  rewrite (nonempty_length uri Huri). unfold sub_log in *.
  destruct (Bolt.get uri (Prefix.uuidBucket store)) as [ub |] eqn:Hget.
  - destruct (log_append ub uuids uuid Hlog Hlen Hv) as (b' & Hput & Hlog').
    destruct (Bolt.NextSequence ub) as [id ub1]. cbn [fst snd] in Hput.
    rewrite Hput. cbn [fst snd Prefix.uuidBucket Prefix.tsBucket Prefix.mdBucket].
    rewrite get_put_same.
    split; [reflexivity | split; [exact Hlog' | split; [| split; reflexivity]]].
    intros other Hne. now apply get_put_other.
  - subst uuids.
    destruct (log_append Bolt.emptyBucket [] uuid empty_log Hlen Hv)
      as (b' & Hput & Hlog').
    destruct (Bolt.NextSequence Bolt.emptyBucket) as [id ub1].
    cbn [fst snd] in Hput.
    rewrite Hput. cbn [fst snd Prefix.uuidBucket Prefix.tsBucket Prefix.mdBucket].
    rewrite get_put_same.
    split; [reflexivity | split; [exact Hlog' | split; [| split; reflexivity]]].
    intros other Hne. rewrite !get_put_other by assumption. reflexivity.
Qed.

Lemma AddUUIDURIMapping_appends_witness :
  sub_log (fst (Prefix.AddUUIDURIMapping gapStore "a/c" "0123456789abcdef"))
    "a/c" ["0123456789abcdef"; "0123456789abcdef"].
Proof.
  refine (proj1 (proj2 (AddUUIDURIMapping_appends gapStore "a/c"
                          "0123456789abcdef" ["0123456789abcdef"] _ _ _ _))).
  - discriminate.
  - vm_compute. discriminate.
  - split; reflexivity.
  - vm_compute. reflexivity.
Defined.

(** ** Failed writes *)

Section FailedWriteProps.
Import Bolt Prefix.

Lemma Put_ok (b : Bucket) (k v : string) :
  snd (Put b k v) = None <-> storable_key k /\ storable_value v.
Proof.
  unfold Put, storable_key, storable_value.
  assert (Hk0 : String.length k = 0%nat <-> k = EmptyString)
    by (destruct k; cbn; split; intros H; congruence).
  destruct (Nat.eqb_spec (String.length k) 0) as [H0 | H0].
  { cbn. split; [discriminate |]. intros [[Hne _] _]. tauto. }
  destruct (Z.ltb_spec MaxKeySize (Z.of_nat (String.length k))) as [H1 | H1].
  { cbn. split; [discriminate |]. intros [[_ Hle] _]. lia. }
  destruct (Z.ltb_spec MaxValueSize (Z.of_nat (String.length v))) as [H2 | H2].
  { cbn. split; [discriminate |]. intros [_ Hle]. lia. }
  cbn. split; [| reflexivity]. intros _. tauto.
Qed.

Lemma Update_failed (store : PrefixStore)
    (fn : PrefixStore -> PrefixStore * option error) :
  snd (Update store fn) <> None -> fst (Update store fn) = store.
Proof.
  unfold Update. destruct (fn store) as [s' [e |]]; cbn; congruence.
Qed.

Lemma itob_storable_key (v : Z) : storable_key (itob v).
Proof. split; [discriminate | vm_compute; discriminate]. Qed.

Lemma itob_storable_value (v : Z) : storable_value (itob v).
Proof. vm_compute. discriminate. Qed.

End FailedWriteProps.

(** X4: when a write succeeds and what a failed write leaves behind.
    [AddTimeseriesURI] succeeds exactly on a non-empty URI of at most
    [MaxKeySize] bytes, [AddMetadataURI] exactly on a URI of at most
    [MaxValueSize] bytes (the empty URI included), [AddUUIDURIMapping]
    exactly on a non-empty URI with a UUID of at most [MaxValueSize] bytes;
    a call that returns an error leaves the store, its sequence counters
    included, as it was. *)
Theorem prefix_store_writes (store : Prefix.PrefixStore) (uri : string) (uuid : UUID) :
  (snd (Prefix.AddTimeseriesURI store uri) = None <-> storable_key uri)
  /\ (snd (Prefix.AddMetadataURI store uri) = None <-> storable_value uri)
  /\ (snd (Prefix.AddUUIDURIMapping store uri uuid) = None
      <-> uri <> EmptyString /\ storable_value uuid)
  /\ (snd (Prefix.AddTimeseriesURI store uri) <> None ->
      fst (Prefix.AddTimeseriesURI store uri) = store)
  /\ (snd (Prefix.AddMetadataURI store uri) <> None ->
      fst (Prefix.AddMetadataURI store uri) = store)
  /\ (snd (Prefix.AddUUIDURIMapping store uri uuid) <> None ->
      fst (Prefix.AddUUIDURIMapping store uri uuid) = store).
Proof.
  split; [| split; [| split; [| split; [| split]]]].
  - unfold Prefix.AddTimeseriesURI, Prefix.Update.
    destruct (Bolt.NextSequence (Prefix.tsBucket store)) as [id b].
    pose proof (Put_ok b uri (Prefix.itob id)) as H.
    destruct (Bolt.Put b uri (Prefix.itob id)) as [b' [e |]]; cbn in *.
    + split; [discriminate |]. intros Hk.
      apply H. split; [exact Hk | apply itob_storable_value].
    + split; [| reflexivity]. intros _. now apply H.
  - unfold Prefix.AddMetadataURI, Prefix.Update.
    destruct (Bolt.NextSequence (Prefix.mdBucket store)) as [id b].
    pose proof (Put_ok b (Prefix.itob id) uri) as H.
    destruct (Bolt.Put b (Prefix.itob id) uri) as [b' [e |]]; cbn in *.
    + split; [discriminate |]. intros Hv.
      apply H. split; [apply itob_storable_key | exact Hv].
    + split; [| reflexivity]. intros _. now apply H.
  - unfold Prefix.AddUUIDURIMapping, Prefix.Update, Prefix.CreateBucketIfNotExists.
    destruct uri as [| c uri].
    + cbn. split; [discriminate | intros [H _]; congruence].
    + cbn [String.length Nat.eqb].
      destruct (Bolt.get (String c uri) (Prefix.uuidBucket store)) as [ub |].
      * destruct (Bolt.NextSequence ub) as [id b].
        pose proof (Put_ok b (Prefix.itob id) uuid) as H.
        destruct (Bolt.Put b (Prefix.itob id) uuid) as [b' [e |]]; cbn in *.
        -- split; [discriminate |]. intros [_ Hv].
           apply H. split; [apply itob_storable_key | exact Hv].
        -- split; [| reflexivity]. intros _. split; [discriminate | now apply H].
      * destruct (Bolt.NextSequence Bolt.emptyBucket) as [id b].
        pose proof (Put_ok b (Prefix.itob id) uuid) as H.
        destruct (Bolt.Put b (Prefix.itob id) uuid) as [b' [e |]]; cbn in *.
        -- split; [discriminate |]. intros [_ Hv].
           apply H. split; [apply itob_storable_key | exact Hv].
        -- split; [| reflexivity]. intros _. split; [discriminate | now apply H].
  - apply Update_failed.
  - apply Update_failed.
  - apply Update_failed.
Qed.

(** X5: the scans never return for the empty prefix.  Whatever the store
    holds and whatever bound is put on the loop, [GetTimeseriesSuperstrings],
    [GetMetadataSuperstrings] and [GetUUIDsFromURI] are still in their
    loop when the bound is reached: [bytes.HasPrefix] accepts the [nil]
    key the cursor returns past the last pair. *)
Theorem empty_prefix_never_returns (fuel : nat) (store : Prefix.PrefixStore) :
  Prefix.GetTimeseriesSuperstrings fuel store EmptyString = None
  /\ Prefix.GetMetadataSuperstrings fuel store EmptyString = None
  /\ Prefix.GetUUIDsFromURI fuel store EmptyString = None.
Proof.
  unfold Prefix.GetUUIDsFromURI, Prefix.GetTimeseriesSuperstrings,
    Prefix.GetMetadataSuperstrings.
  rewrite !superstrings_empty_prefix. repeat split.
Qed.

(** ** The timeseries index, from the writes to the scan *)

Section TimeseriesIndexProps.
Import Bolt Prefix.

Lemma GetTimeseriesSuperstrings_fuel (fuel : nat) (store : PrefixStore)
    (prefix : string) :
  prefix <> EmptyString ->
  ordered (pairs (tsBucket store)) ->
  (length (pairs (tsBucket store)) < fuel)%nat ->
  GetTimeseriesSuperstrings fuel store prefix
  = Some (List.filter (String.prefix prefix) (map fst (pairs (tsBucket store))),
          None).
Proof.
  intros Hp Ho Hfuel. unfold GetTimeseriesSuperstrings.
  destruct (Seek_spec (pairs (tsBucket store)) prefix Ho)
    as (Hso & Hge & Hf & Hlen).
  rewrite (superstrings_spec prefix _ Hp Hso Hge) by lia.
  cbn. now rewrite Hf.
Qed.

Lemma Put_pairs (b : Bucket) (k v : string) :
  snd (Put b k v) = None ->
  pairs (fst (Put b k v)) = put k v (pairs b).
Proof.
  unfold Put.
  repeat match goal with
         | |- context [if ?c then _ else _] => destruct c
         end; cbn; congruence.
Qed.

Lemma put_length {V} (k : string) (v : V) (l : list (string * V)) :
  (length (put k v l) <= S (length l))%nat.
Proof.
  induction l as [| [k0 v0] l IH]; cbn [put length]; [lia |].
  destruct (String.compare k k0); cbn [length]; lia.
Qed.

Lemma AddTimeseriesURI_step (store : PrefixStore) (uri : string) :
  ordered (pairs (tsBucket store)) ->
  let store' := fst (AddTimeseriesURI store uri) in
  ordered (pairs (tsBucket store'))
  /\ (forall k, List.In k (map fst (pairs (tsBucket store')))
                <-> List.In k (map fst (pairs (tsBucket store)))
                    \/ (k = uri /\ storable_key uri))
  /\ (length (pairs (tsBucket store')) <= S (length (pairs (tsBucket store))))%nat
  /\ uuidBucket store' = uuidBucket store.
Proof.
  intros Ho store'. subst store'. unfold AddTimeseriesURI, Update.
  destruct (NextSequence (tsBucket store)) as [id b] eqn:Hn.
  assert (Hb : pairs b = pairs (tsBucket store))
    by (unfold NextSequence in Hn; injection Hn as _ <-; reflexivity).
  pose proof (Put_ok b uri (itob id)) as Hok.
  pose proof (Put_pairs b uri (itob id)) as Hpairs.
  destruct (Put b uri (itob id)) as [b' [e |]]; cbn [fst snd] in *.
  - split; [assumption |]. split; [| split; [lia | reflexivity]].
    intros k. split; [now left |]. intros [H | [_ Hk]]; [assumption |].
    assert (Hnone : Some e = None)
      by (apply Hok; split; [assumption | apply itob_storable_value]).
    discriminate.
  - cbn [tsBucket uuidBucket]. rewrite (Hpairs eq_refl), Hb.
    split; [now apply put_ordered |]. split; [| split; [apply put_length | reflexivity]].
    intros k. rewrite put_keys.
    destruct (proj1 Hok eq_refl) as [Hk _]. tauto.
Qed.

Lemma AddTimeseriesURIs_spec (uris : list string) (store : PrefixStore) :
  ordered (pairs (tsBucket store)) ->
  let store' := AddTimeseriesURIs store uris in
  ordered (pairs (tsBucket store'))
  /\ (forall k, List.In k (map fst (pairs (tsBucket store')))
                <-> List.In k (map fst (pairs (tsBucket store)))
                    \/ (List.In k uris /\ storable_key k))
  /\ (length (pairs (tsBucket store'))
      <= length (pairs (tsBucket store)) + length uris)%nat
  /\ uuidBucket store' = uuidBucket store.
Proof.
  revert store. induction uris as [| uri uris IH]; intros store Ho; cbn zeta.
  - cbn. split; [assumption |]. split; [| split; [lia | reflexivity]].
    intros k. tauto.
  - cbn [AddTimeseriesURIs fold_left].
    destruct (AddTimeseriesURI_step store uri Ho) as (Ho1 & Hk1 & Hl1 & Hu1).
    destruct (IH _ Ho1) as (Ho2 & Hk2 & Hl2 & Hu2). cbn zeta in *.
    unfold AddTimeseriesURIs in *.
    split; [assumption |]. split; [| split; [cbn [length]; lia | congruence]].
    intros k. rewrite Hk2, Hk1. cbn [List.In].
    split.
    + intros [[H | [-> H]] | [H1 H2]]; auto.
    + intros [H | [[<- | H1] H2]]; auto.
Qed.

Lemma ordered_keys {V} (l : list (string * V)) :
  ordered l ->
  StronglySorted (fun a b => String.compare a b = Lt) (map fst l).
Proof.
  induction 1 as [| kv l _ IH Hhd]; cbn [map]; constructor; [assumption |].
  apply List.Forall_map. exact Hhd.
Qed.

Lemma StronglySorted_filter {A} (R : A -> A -> Prop) (f : A -> bool) (l : list A) :
  StronglySorted R l -> StronglySorted R (List.filter f l).
Proof.
  induction 1 as [| x l _ IH Hhd]; cbn [List.filter]; [constructor |].
  destruct (f x); [| assumption].
  constructor; [assumption |].
  apply List.Forall_forall. intros y Hy. apply List.filter_In in Hy as [Hy _].
  rewrite List.Forall_forall in Hhd. now apply Hhd.
Qed.

End TimeseriesIndexProps.

(** X6: the timeseries index answers prefix queries exactly.  After any
    sequence of [AddTimeseriesURI] calls on a fresh store, the scan for a
    non-empty prefix ends within as many steps as there were calls (plus
    one) and returns, each once and in byte order, the URIs that were
    added, were accepted as keys and have the prefix. *)
Theorem timeseries_superstrings_exact (uris : list string) (prefix : string) :
  prefix <> EmptyString ->
  exists matching,
    Prefix.GetTimeseriesSuperstrings (S (length uris))
      (AddTimeseriesURIs Prefix.NewPrefixStore uris) prefix
    = Some (matching, None)
    /\ (forall u, List.In u matching
                  <-> List.In u uris /\ storable_key u
                      /\ String.prefix prefix u = true)
    /\ StronglySorted (fun a b => String.compare a b = Lt) matching.
Proof.
  intros Hp.
  destruct (AddTimeseriesURIs_spec uris Prefix.NewPrefixStore)
    as (Ho & Hk & Hl & _); [constructor |].
  cbn zeta in *. cbn [Prefix.NewPrefixStore Prefix.tsBucket Bolt.emptyBucket
                      Bolt.pairs length map Nat.add] in Hk, Hl.
  eexists. split; [| split].
  - apply GetTimeseriesSuperstrings_fuel; [assumption | assumption | lia].
  - intros u. rewrite List.filter_In, Hk. cbn [List.In]. tauto.
  - apply StronglySorted_filter, ordered_keys, Ho.
Qed.

Lemma timeseries_superstrings_exact_witness :
  exists matching,
    Prefix.GetTimeseriesSuperstrings 6
      (AddTimeseriesURIs Prefix.NewPrefixStore ["b/t"; "a/z"; ""; "a/b"; "a/z"]) "a"
    = Some (matching, None)
    /\ (forall u, List.In u matching
                  <-> List.In u ["b/t"; "a/z"; ""; "a/b"; "a/z"] /\ storable_key u
                      /\ String.prefix "a" u = true)
    /\ StronglySorted (fun a b => String.compare a b = Lt) matching.
Proof.
  apply (timeseries_superstrings_exact ["b/t"; "a/z"; ""; "a/b"; "a/z"] "a").
  discriminate.
Defined.

(** X7: [GetUUIDsFromURI] is exact where no UUID sub-bucket is missing.
    Over an ordered timeseries bucket, for a non-empty URI all of whose
    stored superstrings have a UUID sub-bucket, the call ends and returns
    without repetition the UUIDs recorded under those superstrings. *)
Theorem GetUUIDsFromURI_exact (store : Prefix.PrefixStore) (uri : string) :
  uri <> EmptyString ->
  Bolt.ordered (Bolt.pairs (Prefix.tsBucket store)) ->
  (forall suri, List.In suri (map fst (Bolt.pairs (Prefix.tsBucket store))) ->
                String.prefix uri suri = true ->
                Bolt.get suri (Prefix.uuidBucket store) <> None) ->
  exists uuids,
    Prefix.GetUUIDsFromURI (S (length (Bolt.pairs (Prefix.tsBucket store)))) store uri
    = Some (uuids, None)
    /\ List.NoDup uuids
    /\ (forall v, List.In v uuids
                  <-> exists suri ub,
                        List.In suri (map fst (Bolt.pairs (Prefix.tsBucket store)))
                        /\ String.prefix uri suri = true
                        /\ Bolt.get suri (Prefix.uuidBucket store) = Some ub
                        /\ List.In v (map snd (Bolt.pairs ub))).
Proof.
  intros Huri Ho Hall. unfold Prefix.GetUUIDsFromURI.
  rewrite GetTimeseriesSuperstrings_fuel by (assumption || lia).
  cbn [mbind option_bind]. eexists. split; [reflexivity |]. split.
  - apply NoDup_ListNoDup, NoDup_elements.
  - intros v. rewrite <- list_elem_of_In, elem_of_elements.
    rewrite unionUUIDs_complete.
    + split.
      * intros [H | (suri & ub & Hin & Hg & Hv)]; [set_solver |].
        apply List.filter_In in Hin as [Hin Hp]. now exists suri, ub.
      * intros (suri & ub & Hin & Hp & Hg & Hv). right. exists suri, ub.
        split; [apply List.filter_In; now split | now split].
    + apply List.Forall_forall. intros suri Hin.
      apply List.filter_In in Hin as [Hin Hp]. now apply Hall.
Qed.

Lemma GetUUIDsFromURI_exact_witness :
  exists uuids,
    Prefix.GetUUIDsFromURI 3 gapStore "a/c" = Some (uuids, None)
    /\ List.NoDup uuids
    /\ (forall v, List.In v uuids
                  <-> exists suri ub,
                        List.In suri (map fst (Bolt.pairs (Prefix.tsBucket gapStore)))
                        /\ String.prefix "a/c" suri = true
                        /\ Bolt.get suri (Prefix.uuidBucket gapStore) = Some ub
                        /\ List.In v (map snd (Bolt.pairs ub))).
Proof.
  apply (GetUUIDsFromURI_exact gapStore "a/c").
  - discriminate.
  - repeat constructor.
  - intros suri [<- | [<- | []]] Hp; vm_compute in Hp |- *; discriminate.
Defined.

(** ** The stream cache *)

Section CacheProps.
Context `{E : Engine}.

Lemma getStream_found (bdb : btrdbv4Iface) (uuid : UUID) :
  snd (snd (getStream bdb uuid)) = None <-> found bdb uuid = true.
Proof.
  unfold getStream, found.
  destruct (streamCache bdb !! uuid) as [s |]; [cbn; tauto |].
  destruct (Exists {| stream_UUID := uuid |}) as [[|] [e |]]; cbn;
    split; congruence.
Qed.

(** What [getStream] does to the cache: it adds the handle of the UUID when
    the engine had to confirm the stream, and nothing else. *)
Lemma getStream_cache (bdb : btrdbv4Iface) (uuid : UUID) :
  streamCache (fst (getStream bdb uuid))
  = if found bdb uuid
    then match streamCache bdb !! uuid with
         | Some _ => streamCache bdb
         | None => <[uuid := {| stream_UUID := uuid |}]> (streamCache bdb)
         end
    else streamCache bdb.
Proof.
  unfold getStream, found.
  destruct (streamCache bdb !! uuid) as [s |]; [reflexivity |].
  now destruct (Exists {| stream_UUID := uuid |}) as [[|] [e |]].
Qed.

Lemma getStream_handle (bdb : btrdbv4Iface) (uuid : UUID) :
  cache_ok bdb -> stream_UUID (fst (snd (getStream bdb uuid))) = uuid.
Proof.
  intros Hok. unfold getStream.
  destruct (streamCache bdb !! uuid) as [s |] eqn:Hc; [exact (Hok _ _ Hc) |].
  now destruct (Exists {| stream_UUID := uuid |}) as [[|] [e |]].
Qed.

Lemma getStream_cache_ok (bdb : btrdbv4Iface) (uuid : UUID) :
  cache_ok bdb -> cache_ok (fst (getStream bdb uuid)).
Proof.
  intros Hok k s. rewrite getStream_cache.
  destruct (found bdb uuid); [| apply Hok].
  destruct (streamCache bdb !! uuid) as [s0 |]; [apply Hok |].
  rewrite lookup_insert. case_decide as Hk.
  - intros [= <-]. now subst.
  - apply Hok.
Qed.

(** Looking a stream up does not change which UUIDs are found. *)
Lemma getStream_found_stable (bdb : btrdbv4Iface) (uuid k : UUID) :
  found (fst (getStream bdb uuid)) k = found bdb k.
Proof.
  unfold found at 1. rewrite getStream_cache.
  destruct (found bdb uuid) eqn:Hf; [| reflexivity].
  destruct (streamCache bdb !! uuid) as [s0 |] eqn:Hc; [reflexivity |].
  rewrite lookup_insert. case_decide as Hk; [| reflexivity].
  subst k. symmetry. exact Hf.
Qed.

End CacheProps.

(** X8: a stream that was found once is served from the cache.  After a
    [getStream] that returned without error, every later [getStream] for
    the same UUID returns the same handle without error and leaves the
    adapter as it is, whatever the engine would answer by then. *)
Theorem getStream_cached (E E' : Engine) (bdb : btrdbv4Iface) (uuid : UUID) :
  snd (snd (getStream (E := E) bdb uuid)) = None ->
  let bdb' := fst (getStream (E := E) bdb uuid) in
  getStream (E := E') bdb' uuid
  = (bdb', (fst (snd (getStream (E := E) bdb uuid)), None)).
Proof.
  intros Hok bdb'. subst bdb'. unfold getStream in *.
  destruct (streamCache bdb !! uuid) as [s |] eqn:Hc.
  - cbn [fst snd]. now rewrite Hc.
  - destruct (@Exists E {| stream_UUID := uuid |}) as [[|] [e |]];
      cbn [fst snd] in *; try discriminate.
    cbn [streamCache]. now rewrite lookup_insert_eq.
Qed.

Lemma getStream_cached_witness :
  getStream (E := downEngine) (fst (getStream (E := refEngine) refIface "u1")) "u1"
  = (fst (getStream (E := refEngine) refIface "u1"),
     ({| stream_UUID := "u1" |}, None)).
Proof.
  exact (getStream_cached refEngine downEngine refIface "u1" eq_refl).
Defined.

(** X9: [uuidsToStreams] returns, in the order of the request, the handles
    of exactly the requested UUIDs that are found (an engine failure on one
    UUID drops that UUID only); it keeps the cache sound and caches no UUID
    that was not requested and found. *)
Theorem uuidsToStreams_found `{E : Engine} (uuids : list UUID) (bdb : btrdbv4Iface) :
  cache_ok bdb ->
  map stream_UUID (snd (uuidsToStreams bdb uuids)) = List.filter (found bdb) uuids
  /\ cache_ok (fst (uuidsToStreams bdb uuids))
  /\ (forall k, found (fst (uuidsToStreams bdb uuids)) k = found bdb k)
  /\ (forall k, is_Some (streamCache (fst (uuidsToStreams bdb uuids)) !! k)
                <-> is_Some (streamCache bdb !! k)
                    \/ (List.In k uuids /\ found bdb k = true)).
Proof.
  revert bdb. induction uuids as [| id rest IH]; intros bdb Hok.
  - cbn. split; [reflexivity | split; [assumption | split; [reflexivity |]]].
    intros k. tauto.
  - cbn [uuidsToStreams List.filter].
    pose proof (getStream_found bdb id) as Hf.
    pose proof (getStream_handle bdb id Hok) as Hh.
    pose proof (getStream_cache_ok bdb id Hok) as Hok1.
    pose proof (getStream_found_stable bdb id) as Hst.
    pose proof (getStream_cache bdb id) as Hca.
    destruct (getStream bdb id) as [bdb1 [stream err]]. cbn [fst snd] in *.
    destruct (IH bdb1 Hok1) as (Hm & Hok2 & Hst2 & Hc2).
    destruct (uuidsToStreams bdb1 rest) as [bdb2 streams]. cbn [fst snd] in *.
    assert (Hfilter : List.filter (found bdb1) rest = List.filter (found bdb) rest)
      by (apply List.filter_ext; exact Hst).
    split; [| split; [| split]].
    + destruct err as [e |], (found bdb id) eqn:Hfd; cbn [snd map].
      * destruct Hf as [_ Hf]. discriminate (Hf eq_refl).
      * congruence.
      * congruence.
      * destruct Hf as [Hf _]. discriminate (Hf eq_refl).
    + now destruct err.
    + intros k. destruct err; cbn [fst]; now rewrite Hst2.
    + intros k.
      assert (Hgoal : is_Some (streamCache bdb2 !! k)
                      <-> is_Some (streamCache bdb !! k)
                          \/ (List.In k (id :: rest) /\ found bdb k = true)).
      { rewrite Hc2, Hst, Hca. cbn [List.In].
        destruct (found bdb id) eqn:Hfd.
        - destruct (streamCache bdb !! id) as [s0 |] eqn:Hc0.
          { split; [tauto |].
            intros [H | [[<- | H1] H2]]; [tauto | | tauto].
            left. rewrite Hc0. eauto. }
          rewrite lookup_insert. case_decide as Hk.
          + subst k. split; [| intros _; left; eauto].
            intros _. right. split; [now left | exact Hfd].
          + tauto.
        - split; [tauto |]. intros [H | [[<- | H1] H2]]; [tauto | congruence | tauto]. }
      now destruct err.
Qed.

Lemma uuidsToStreams_found_witness :
  map stream_UUID (snd (uuidsToStreams refIface ["u1"; "gone"; "down"; "u2"]))
  = ["u1"; "u2"].
Proof.
  refine (proj1 (uuidsToStreams_found (E := refEngine)
                   ["u1"; "gone"; "down"; "u2"] refIface _)).
  intros k s Hk. discriminate Hk.
Defined.

(** X10: [StreamExists] answers [true] exactly for the UUIDs that are
    found, and then without error; the sentinel [errStreamNotExist] is
    turned into [false] without error and never returned; an error it does
    return is the engine's error, wrapped. *)
Theorem StreamExists_answers `{E : Engine} (bdb : btrdbv4Iface) (uuid : UUID) :
  let answer := snd (StreamExists bdb uuid) in
  (fst answer = true <-> found bdb uuid = true)
  /\ (fst answer = true -> snd answer = None)
  /\ snd answer <> Some errStreamNotExist
  /\ (forall e, snd answer = Some e ->
        exists cause, snd (Exists {| stream_UUID := uuid |}) = Some cause
                      /\ e = ErrWrap cause "Could not fetch stream")
  /\ fst (StreamExists bdb uuid) = fst (getStream bdb uuid).
Proof.
  unfold StreamExists, getStream, found.
  destruct (streamCache bdb !! uuid) as [s |].
  - cbn. repeat split; try congruence; try discriminate.
  - destruct (Exists {| stream_UUID := uuid |}) as [[|] [e |]]; cbn;
      (split; [split; congruence |]);
      (split; [congruence |]);
      (split; [congruence |]);
      (split; [| reflexivity]);
      intros e' He'; try discriminate; injection He' as <-; eauto.
Qed.

(** ** Raw reads *)

Section GetDataProps.
Context `{D : Decls} `{E : Engine}.


End GetDataProps.


(** X12: [GetDataUUID] and [GetData] read the same series.  For a UUID
    whose stream is found, [GetDataUUID] in nanoseconds returns the series
    and the error of the read; [GetData] for that UUID alone returns the
    same series and no error when the read succeeded, and no series with
    the same error when it failed.  Both leave the same adapter. *)
Theorem GetDataUUID_agrees_with_GetData `{D : Decls} `{E : Engine}
    (bdb : btrdbv4Iface) (uuid : UUID) (start end_ : Z) :
  found bdb uuid = true ->
  exists bdb' ts err,
    GetDataUUID bdb uuid start end_ UOT_NS = Returned (bdb', (ts, err))
    /\ GetData bdb [uuid] start end_
       = (bdb', (match err with None => [ts] | Some _ => [] end, err)).
Proof.
  intros Hf. apply getStream_found in Hf.
  unfold GetDataUUID, GetData. cbn [uuidsToStreams].
  destruct (getStream bdb uuid) as [bdb' [stream [e |]]]; [discriminate |].
  cbn [index nth_error mbind outcome_bind bind getData].
  destruct (RawValues stream start end_) as [[rawpoints generation] [e |]];
    do 3 eexists; split; reflexivity.
Qed.

Lemma GetDataUUID_agrees_with_GetData_witness :
  exists bdb' ts err,
    GetDataUUID (E := refEngine) refIface "u1" 0 10 1
    = Returned (bdb', (ts, err))
    /\ GetData (D := refDecls) (E := refEngine) refIface ["u1"] 0 10
       = (bdb', (match err with None => [ts] | Some _ => [] end, err)).
Proof.
  exact (GetDataUUID_agrees_with_GetData (D := refDecls) (E := refEngine)
           refIface "u1" 0 10 eq_refl).
Defined.

(** ** Annotations *)

Section AnnotationProps.
Context `{E : Engine}.

Lemma is_string_false (v : value) :
  is_string v = false <-> forall s, v <> VString s.
Proof.
  destruct v; cbn; split; try congruence; try discriminate.
  intros H. exfalso. exact (H _ eq_refl).
Qed.

Lemma annotate_returns (updates : list (string * value))
    (annotations : gmap string string) :
  List.Forall (fun kv => is_string (snd kv) = true) updates ->
  exists m, annotate updates annotations = Returned m.
Proof.
  intros Hall. revert annotations.
  induction Hall as [| [k v] rest Hv _ IH]; intros annotations.
  - now exists annotations.
  - destruct v; try discriminate. cbn. apply IH.
Qed.

(** Where the loop writes: under the lowered keys of the updates, and
    nowhere else. *)
Lemma annotate_other (updates : list (string * value))
    (annotations m : gmap string string) (j : string) :
  annotate updates annotations = Returned m ->
  ~ List.In j (map lowered updates) ->
  m !! j = annotations !! j.
Proof.
  revert annotations. induction updates as [| [k v] rest IH];
    intros annotations Hrun Hnin.
  - now injection Hrun as <-.
  - destruct v; try discriminate. cbn in Hrun, Hnin.
    rewrite (IH _ Hrun) by tauto.
    apply lookup_insert_ne. unfold lowered in Hnin. cbn in Hnin. tauto.
Qed.

Lemma annotate_from (updates : list (string * value))
    (annotations m : gmap string string) (j s : string) :
  annotate updates annotations = Returned m ->
  m !! j = Some s ->
  annotations !! j = Some s
  \/ exists k, List.In (k, VString s) updates /\ j = ToLower k.
Proof.
  revert annotations. induction updates as [| [k v] rest IH];
    intros annotations Hrun Hm.
  - injection Hrun as <-. now left.
  - destruct v as [s0 | | |]; try discriminate. cbn in Hrun.
    destruct (IH _ Hrun Hm) as [Hacc | (k' & Hin & Hj)].
    + rewrite lookup_insert in Hacc. case_decide as Hk.
      * injection Hacc as <-. right. exists k. split; [now left | congruence].
      * now left.
    + right. exists k'. split; [now right | assumption].
Qed.

Lemma annotate_covers (updates : list (string * value))
    (annotations m : gmap string string) (kv : string * value) :
  annotate updates annotations = Returned m ->
  List.In kv updates ->
  is_Some (m !! lowered kv).
Proof.
  revert annotations kv. induction updates as [| [k v] rest IH];
    intros annotations kv Hrun Hin; [destruct Hin |].
  destruct v as [s0 | | |]; try discriminate. cbn in Hrun.
  destruct Hin as [<- | Hin]; [| exact (IH _ _ Hrun Hin)].
  destruct (in_dec string_dec (lowered (k, VString s0)) (map lowered rest))
    as [Hl | Hl].
  - apply in_map_iff in Hl as (kv' & Heq & Hin'). rewrite <- Heq.
    exact (IH _ _ Hrun Hin').
  - rewrite (annotate_other _ _ _ _ Hrun Hl). unfold lowered. cbn [fst].
    rewrite lookup_insert_eq. eauto.
Qed.

Lemma annotate_distinct (updates : list (string * value))
    (annotations m : gmap string string) (k s : string) :
  annotate updates annotations = Returned m ->
  List.NoDup (map lowered updates) ->
  List.In (k, VString s) updates ->
  m !! ToLower k = Some s.
Proof.
  revert annotations. induction updates as [| [k0 v0] rest IH];
    intros annotations Hrun Hnd Hin; [destruct Hin |].
  destruct v0 as [s0 | | |]; try discriminate. cbn in Hrun.
  cbn [map] in Hnd. inversion Hnd as [| ? ? Hnin Hnd']; subst.
  destruct Hin as [[= <- <-] | Hin].
  - change (ToLower k0) with (lowered (k0, VString s0)).
    rewrite (annotate_other _ _ _ _ Hrun Hnin). unfold lowered. cbn [fst].
    apply lookup_insert_eq.
  - exact (IH _ Hrun Hnd' Hin).
Qed.

End AnnotationProps.

(** X13: when [AddAnnotations] panics.  The call panics exactly when the
    stream of the UUID is found and some value of the update is not a
    string; for a UUID without stream it returns without error and without
    looking at the values. *)
Theorem AddAnnotations_panics_iff `{E : Engine} (bdb : btrdbv4Iface) (uuid : UUID)
    (updates : list (string * value)) :
  (panics (AddAnnotations bdb uuid updates) = true
   <-> found bdb uuid = true
       /\ List.Exists (fun kv => is_string (snd kv) = false) updates)
  /\ (found bdb uuid = false ->
      AddAnnotations bdb uuid updates = Returned (fst (getStream bdb uuid), None)).
Proof.
  pose proof (getStream_found bdb uuid) as Hf.
  unfold AddAnnotations. cbn [uuidsToStreams].
  destruct (getStream bdb uuid) as [bdb' [stream [e |]]]; cbn [fst snd] in *.
  - assert (Hnf : found bdb uuid = false)
      by (destruct (found bdb uuid); [destruct Hf as [_ Hf]; now specialize (Hf eq_refl) | reflexivity]).
    rewrite Hnf. cbn. split; [| reflexivity].
    split; [discriminate | intros [H _]; discriminate].
  - rewrite (proj1 Hf eq_refl). split; [| discriminate].
    destruct (List.Exists_dec (fun kv => is_string (snd kv) = false) updates)
      as [Hex | Hnex].
    { intros kv. destruct (is_string (snd kv)); [right | left]; congruence. }
    + pose proof (annotate_panics updates ∅) as Hp.
      destruct (annotate updates ∅) as [m | why]; cbn.
      * exfalso. enough (false = true) by discriminate. apply Hp.
        eapply List.Exists_impl; [| exact Hex]. cbn. intros kv Hkv.
        now apply is_string_false.
      * tauto.
    + assert (Hall : List.Forall (fun kv => is_string (snd kv) = true) updates).
      { apply List.Forall_forall. intros kv Hin.
        destruct (is_string (snd kv)) eqn:Hs; [reflexivity |].
        exfalso. apply Hnex. apply List.Exists_exists. now exists kv. }
      destruct (annotate_returns updates ∅ Hall) as (m & Hm). rewrite Hm.
      cbn [mbind outcome_bind bind].
      destruct (Annotations stream) as [ver [e |]]; cbn; split;
        try discriminate; tauto.
Qed.

(** X14: what [AddAnnotations] writes.  When the stream is found and every
    value is a string, the call does not panic; it returns the error of
    [stream.Annotations] if that fails and otherwise the result of the
    compare-and-set against the version just read.  The annotations it
    sets are filed under the lower-cased keys of the update, each with the
    value of some update of that lowered key, and with the value of the
    update itself when no two keys lower to the same one. *)
Theorem AddAnnotations_lowercases `{E : Engine} (bdb : btrdbv4Iface) (uuid : UUID)
    (updates : list (string * value)) :
  found bdb uuid = true ->
  List.Forall (fun kv => is_string (snd kv) = true) updates ->
  exists annotations,
    AddAnnotations bdb uuid updates
    = Returned (fst (getStream bdb uuid),
                match Annotations (fst (snd (getStream bdb uuid))) with
                | (_, Some e) => Some e
                | (ver, None) =>
                    CompareAndSetAnnotation (fst (snd (getStream bdb uuid)))
                      ver annotations
                end)
    /\ (forall j s, annotations !! j = Some s ->
          exists k, List.In (k, VString s) updates /\ j = ToLower k)
    /\ (forall k v, List.In (k, v) updates -> is_Some (annotations !! ToLower k))
    /\ (List.NoDup (map lowered updates) ->
        forall k s, List.In (k, VString s) updates ->
                    annotations !! ToLower k = Some s).
Proof.
  intros Hf Hall. apply getStream_found in Hf.
  destruct (annotate_returns updates ∅ Hall) as (m & Hm).
  exists m. split; [| split; [| split]].
  - unfold AddAnnotations. cbn [uuidsToStreams].
    destruct (getStream bdb uuid) as [bdb' [stream [e |]]]; [discriminate |].
    cbn [fst snd]. rewrite Hm. cbn [mbind outcome_bind bind].
    now destruct (Annotations stream) as [ver [e |]].
  - intros j s Hj.
    destruct (annotate_from _ _ _ _ _ Hm Hj) as [Hempty | H]; [| exact H].
    rewrite lookup_empty in Hempty. discriminate.
  - intros k v Hin. exact (annotate_covers _ _ _ (k, v) Hm Hin).
  - intros Hnd k s Hin. exact (annotate_distinct _ _ _ _ _ Hm Hnd Hin).
Qed.

Lemma AddAnnotations_lowercases_witness :
  exists annotations,
    AddAnnotations (E := refEngine) refIface "u1"
      [("Unit", VString "degF"); ("Room", VString "410")]
    = Returned (fst (getStream refIface "u1"),
                CompareAndSetAnnotation {| stream_UUID := "u1" |} 1 annotations)
    /\ annotations !! "unit" = Some "degF"
    /\ annotations !! "room" = Some "410".
Proof.
  destruct (AddAnnotations_lowercases (E := refEngine) refIface "u1"
              [("Unit", VString "degF"); ("Room", VString "410")] eq_refl)
    as (annotations & Hrun & _ & _ & Hd).
  { repeat constructor. }
  exists annotations. split; [exact Hrun |].
  assert (Hnd : List.NoDup (map (lowered (E := refEngine))
                              [("Unit", VString "degF"); ("Room", VString "410")])).
  { repeat constructor; cbn; intuition discriminate. }
  split.
  - exact (Hd Hnd "Unit" "degF" (or_introl eq_refl)).
  - exact (Hd Hnd "Room" "410" (or_intror (or_introl eq_refl))).
Defined.

(** ** Registered streams *)

(** X15: a registered stream is served from the cache.  After a
    [RegisterStream] that returned no error, [StreamExists] for the UUID
    answers [true] without error whatever the engine answers, and leaves
    the adapter as it is; a [RegisterStream] that failed leaves the adapter
    as it was. *)
Theorem RegisterStream_then_exists `{C : Register.Creator} (E : Engine)
    (bdb : btrdbv4Iface) (uuid : UUID) (uri name unit_ : string) :
  let bdb' := fst (Register.RegisterStream bdb uuid uri name unit_) in
  (snd (Register.RegisterStream bdb uuid uri name unit_) = None ->
   StreamExists (E := E) bdb' uuid = (bdb', (true, None)))
  /\ (snd (Register.RegisterStream bdb uuid uri name unit_) <> None ->
      bdb' = bdb).
Proof.
  unfold Register.RegisterStream, Register.createStream.
  destruct (Register.Create uuid uri _) as [stream [e |]]; cbn [fst snd];
    split; try discriminate; try congruence.
  intros _. unfold StreamExists, getStream. cbn [streamCache].
  now rewrite lookup_insert_eq.
Qed.

Lemma RegisterStream_then_exists_witness :
  StreamExists (E := downEngine)
    (fst (Register.RegisterStream (C := refCreator) refIface "u7" "scratch/r1/temp"
            "temp" "degF")) "u7"
  = (fst (Register.RegisterStream (C := refCreator) refIface "u7" "scratch/r1/temp"
            "temp" "degF"), (true, None)).
Proof.
  exact (proj1 (RegisterStream_then_exists (C := refCreator) downEngine refIface
                  "u7" "scratch/r1/temp" "temp" "degF") eq_refl).
Defined.

(** ** The write counters over a batch *)

Section BatchProps.
Context `{E : Engine}.

Lemma wrap64_succ (z : Z) : wrap64 (wrap64 z + 1) = wrap64 (z + 1).
Proof.
  unfold wrap64.
  replace ((z + 2 ^ 63) mod 2 ^ 64 - 2 ^ 63 + 1 + 2 ^ 63)
    with ((z + 2 ^ 63) mod 2 ^ 64 + 1) by lia.
  rewrite Z.add_mod_idemp_l by lia.
  now replace (z + 2 ^ 63 + 1) with (z + 1 + 2 ^ 63) by lia.
Qed.

(** One call: the adapter is the one [getStream] leaves, the pending
    counter is back where it was, and the completed counter has moved by
    one exactly when the stream was found. *)
Lemma AddReadings_step (bdb : btrdbv4Iface) (g : counters)
    (readings : Timeseries float64) :
  - 2 ^ 63 <= currentWrites g < 2 ^ 63 ->
  run_bdb (AddReadings bdb g readings) = fst (getStream bdb (ts_UUID readings))
  /\ currentWrites (run_counters (AddReadings bdb g readings)) = currentWrites g
  /\ completedWrites (run_counters (AddReadings bdb g readings))
     = if found bdb (ts_UUID readings)
       then wrap64 (completedWrites g + 1)
       else completedWrites g.
Proof.
  intros Hc. pose proof (getStream_found bdb (ts_UUID readings)) as Hf.
  unfold AddReadings.
  destruct (getStream bdb (ts_UUID readings)) as [bdb' [stream [e |]]];
    cbn [fst snd run_bdb run_counters] in *.
  - destruct (found bdb (ts_UUID readings));
      [destruct Hf as [_ Hf]; discriminate (Hf eq_refl) | now repeat split].
  - rewrite (proj1 Hf eq_refl). cbn.
    split; [reflexivity | split; [now apply wrap64_incr_decr | reflexivity]].
Qed.

Lemma wrap64_add_nat (z : Z) (n : nat) :
  wrap64 (wrap64 (z + 1) + Z.of_nat n) = wrap64 (z + Z.of_nat (S n)).
Proof.
  unfold wrap64.
  replace ((z + 1 + 2 ^ 63) mod 2 ^ 64 - 2 ^ 63 + Z.of_nat n + 2 ^ 63)
    with ((z + 1 + 2 ^ 63) mod 2 ^ 64 + Z.of_nat n) by lia.
  rewrite Z.add_mod_idemp_l by lia.
  now replace (z + 1 + 2 ^ 63 + Z.of_nat n) with (z + Z.of_nat (S n) + 2 ^ 63)
    by lia.
Qed.

End BatchProps.

(** X16: the write counters after a batch.  After any sequence of
    [AddReadings] calls the pending counter [currentWrites] is back at its
    initial value, and [completedWrites] has advanced (modulo 2^64) by the
    number of calls whose stream was found, whether or not their inserts
    succeeded. *)
Theorem AddReadingsAll_counters `{E : Engine} (batch : list (Timeseries float64))
    (bdb : btrdbv4Iface) (g : counters) :
  - 2 ^ 63 <= currentWrites g < 2 ^ 63 ->
  - 2 ^ 63 <= completedWrites g < 2 ^ 63 ->
  currentWrites (snd (AddReadingsAll bdb g batch)) = currentWrites g
  /\ completedWrites (snd (AddReadingsAll bdb g batch))
     = wrap64 (completedWrites g
               + Z.of_nat (length (List.filter
                                     (fun readings => found bdb (ts_UUID readings))
                                     batch))).
Proof.
  revert bdb g. induction batch as [| readings rest IH]; intros bdb g Hc Hd.
  - cbn. split; [reflexivity |]. rewrite Z.add_0_r. symmetry.
    now apply wrap64_id.
  - unfold AddReadingsAll in *. cbn [fold_left fst snd List.filter].
    destruct (AddReadings_step bdb g readings Hc) as (Hb & Hcur & Hdone).
    specialize (IH (run_bdb (AddReadings bdb g readings))
                   (run_counters (AddReadings bdb g readings))).
    rewrite Hcur in IH.
    assert (Hrange : - 2 ^ 63
                     <= completedWrites (run_counters (AddReadings bdb g readings))
                     < 2 ^ 63).
    { rewrite Hdone. destruct (found bdb (ts_UUID readings));
        [apply wrap64_range | exact Hd]. }
    destruct (IH Hc Hrange) as [IHc IHd].
    split; [exact IHc |]. rewrite IHd, Hdone, Hb.
    rewrite (List.filter_ext
               (fun r => found (fst (getStream bdb (ts_UUID readings))) (ts_UUID r))
               (fun r => found bdb (ts_UUID r)))
      by (intros r; apply getStream_found_stable).
    destruct (found bdb (ts_UUID readings)); [| reflexivity].
    cbn [length]. apply wrap64_add_nat.
Qed.

Lemma AddReadingsAll_counters_witness :
  let g := {| currentWrites := 3; completedWrites := 2 ^ 63 - 1 |} in
  let batch := [refReadings "u1"; refReadings "gone"; refReadings "full"] in
  currentWrites (snd (AddReadingsAll (E := refEngine) refIface g batch)) = 3
  /\ completedWrites (snd (AddReadingsAll (E := refEngine) refIface g batch))
     = - 2 ^ 63 + 1.
Proof.
  intros g batch.
  destruct (AddReadingsAll_counters (E := refEngine) batch refIface g) as [Hc Hd];
    [vm_compute; split; [discriminate | reflexivity]
    | vm_compute; split; [discriminate | reflexivity] |].
  split; [exact Hc |]. rewrite Hd. reflexivity.
Defined.

(** ** The query listener *)

Section ReplyProps.
Context `{Ev : Evaluators}.
Variable Parse : string -> ParsedQuery.

(** [HandleQuery] fills the result of the branch it takes and no other. *)
Lemma HandleQuery_classes (vk query : string) (r : QueryResult) :
  HandleQuery Parse vk query = Returned r ->
  match p_Err (Parse query), p_QueryType (Parse query) with
  | Some perr, _ =>
      mdResult r = [] /\ tsResult r = [] /\ statsResult r = []
      /\ changedResult r = []
      /\ err r = Some (parseErrorf perr query (p_ErrPos (Parse query)))
  | None, SELECT_TYPE =>
      tsResult r = [] /\ statsResult r = [] /\ changedResult r = []
  | None, DATA_TYPE =>
      mdResult r = []
      /\ ((tsResult r = [] /\ changedResult r = [])
          \/ (statsResult r = [] /\ changedResult r = [])
          \/ (tsResult r = [] /\ statsResult r = []))
  | None, OTHER_QUERY_TYPE => r = noResult
  end.
Proof.
  unfold HandleQuery.
  destruct (p_Err (Parse query)) as [perr |].
  { intros [= <-]. now repeat split. }
  destruct (p_QueryType (Parse query)).
  - destruct (p_Distinct (Parse query)).
    + destruct (assert_DistinctParams _) as [params |]; [| discriminate].
      cbn [mbind outcome_bind bind].
      destruct (DistinctTag vk params) as [[results e] |]; [| discriminate].
      intros [= <-]. now repeat split.
    + destruct (assert_TagParams _) as [params |]; [| discriminate].
      cbn [mbind outcome_bind bind].
      destruct (SelectTags vk params) as [[md e] |]; [| discriminate].
      intros [= <-]. now repeat split.
  - destruct (assert_DataParams _) as [params |]; [| discriminate].
    cbn [mbind outcome_bind bind].
    destruct (IsStatistical params || IsWindow params).
    { destruct (SelectStatisticalData vk params) as [[stats e] |]; [| discriminate].
      intros [= <-]. split; [reflexivity |]. left. now split. }
    destruct (IsChangedRanges params).
    { destruct (GetChangedRanges params) as [[changed e] |]; [| discriminate].
      intros [= <-]. split; [reflexivity |]. right. right. now split. }
    destruct (p_Dtype (Parse query)).
    + destruct (SelectDataRange vk params) as [[ts e] |]; [| discriminate].
      intros [= <-]. split; [reflexivity |]. right. left. now split.
    + destruct (SelectDataBefore vk params) as [[ts e] |]; [| discriminate].
      intros [= <-]. split; [reflexivity |]. right. left. now split.
    + destruct (SelectDataAfter vk params) as [[ts e] |]; [| discriminate].
      intros [= <-]. split; [reflexivity |]. right. left. now split.
    + intros [= <-]. split; [reflexivity |]. left. now split.
  - now intros [= <-].
Qed.

(** The reply to a result of [HandleQuery] is a single payload object. *)
Lemma assembleReply_single (vk query : string) (r : QueryResult) (nonce : Z) :
  HandleQuery Parse vk query = Returned r ->
  exists po, assembleReply nonce r = [po] /\ po_nonce po = nonce.
Proof.
  intros Hr. pose proof (HandleQuery_classes vk query r Hr) as Hc.
  pose proof (assembleReply_nonce nonce r) as Hn.
  assert (Hlen : length (assembleReply nonce r) = 1%nat).
  { unfold assembleReply.
    destruct (p_Err (Parse query)) as [perr |].
    - destruct Hc as (-> & -> & -> & -> & _). reflexivity.
    - destruct (p_QueryType (Parse query)).
      + destruct Hc as (-> & -> & ->). now destruct (mdResult r).
      + destruct Hc as (-> & [[-> ->] | [[-> ->] | [-> ->]]]).
        * now destruct (statsResult r).
        * now destruct (tsResult r).
        * now destruct (changedResult r).
      + now subst r. }
  destruct (assembleReply nonce r) as [| po [| po' rest]]; try discriminate.
  exists po. split; [reflexivity |]. now inversion Hn.
Qed.

(** A call that goes on with a query publishes something or panics. *)
Lemma listenQueries_ignored_cases (msg : SimpleMessage) :
  (GetOnePODF msg = None
   \/ exists po e, GetOnePODF msg = Some po /\ po_body po = MsgPack (inr e))
  \/ (listenQueries Parse msg = Returned [] -> False).
Proof.
  unfold listenQueries, decodeQuery.
  destruct (GetOnePODF msg) as [po |]; [| left; now left].
  destruct (po_body po) as [| [query | e]] eqn:Hb.
  - right. destruct (signalURIFor (From msg)); [| discriminate].
    cbn [mbind outcome_bind bind].
    destruct (HandleQuery Parse (From msg) (Query zeroKeyValueQuery));
      [| discriminate].
    cbn [mbind outcome_bind bind]. destruct (err a0); discriminate.
  - right. destruct (signalURIFor (From msg)); [| discriminate].
    cbn [mbind outcome_bind bind].
    destruct (HandleQuery Parse (From msg) (Query query)); [| discriminate].
    cbn [mbind outcome_bind bind]. destruct (err a0); discriminate.
  - left. right. now exists po, e.
Qed.

End ReplyProps.

(** X17: what [listenQueries] publishes.  A call that returns has
    published nothing, or exactly one signal, on the reply signal of the
    requester, carrying exactly one payload object (a [QueryError] or one
    result payload) that bears the nonce of the query it decoded. *)
Theorem listenQueries_publishes_once `{Ev : Evaluators}
    (Parse : string -> ParsedQuery) (msg : SimpleMessage)
    (pubs : list Publication) :
  listenQueries Parse msg = Returned pubs ->
  pubs = []
  \/ exists po query payload,
       GetOnePODF msg = Some po /\ decodeQuery po = Some query
       /\ From msg <> EmptyString
       /\ pubs = [(replySignal (From msg), [payload])]
       /\ po_nonce payload = Nonce query.
Proof.
  unfold listenQueries.
  destruct (GetOnePODF msg) as [po |]; [| intros [= <-]; now left].
  destruct (decodeQuery po) as [query |] eqn:Hq; [| intros [= <-]; now left].
  destruct (string_dec (From msg) EmptyString) as [He | Hne].
  { rewrite He. discriminate. }
  rewrite (signalURIFor_nonempty _ Hne). cbn [mbind outcome_bind bind].
  destruct (HandleQuery Parse (From msg) (Query query)) as [r |] eqn:Hr;
    [| discriminate].
  cbn [mbind outcome_bind bind]. intros Hrun. right.
  exists po, query.
  destruct (err r) as [e |].
  - injection Hrun as <-. eexists.
    split; [reflexivity | split; [exact Hq | split; [assumption |]]].
    split; reflexivity.
  - injection Hrun as <-.
    destruct (assembleReply_single Parse _ _ r (Nonce query) Hr) as (p & Hp & Hn).
    exists p. rewrite Hp.
    split; [reflexivity | split; [exact Hq | split; [assumption |]]].
    split; [reflexivity | assumption].
Qed.

Lemma listenQueries_publishes_once_witness :
  exists payload,
    listenQueries refParse (refMessage "vk1=" (refQuery "distinct"))
    = Returned [("vk1,queries", [payload])]
    /\ po_nonce payload = 42.
Proof.
  destruct (listenQueries_publishes_once (Ev := refEvaluators) refParse
              (refMessage "vk1=" (refQuery "distinct")) _ eq_refl)
    as [H | (po & query & payload & Hpo & Hq & _ & Hpubs & Hn)];
    [discriminate H |].
  injection Hpo as <-. injection Hq as <-.
  exists payload. split; [| exact Hn].
  injection Hpubs as Hp. subst payload. reflexivity.
Defined.

(** X18: when [listenQueries] panics.  The call panics exactly when the
    message carries a query payload object that it goes on with (one that
    decodes, or one that is not msgpack) and either the requester's key is
    empty or the evaluation of the query panics.  A message without query
    payload object, or with one that fails to decode, never makes it
    panic. *)
Theorem listenQueries_panics_iff `{Ev : Evaluators}
    (Parse : string -> ParsedQuery) (msg : SimpleMessage) :
  panics (listenQueries Parse msg) = true
  <-> exists po query,
        GetOnePODF msg = Some po /\ decodeQuery po = Some query
        /\ (From msg = EmptyString
            \/ panics (HandleQuery Parse (From msg) (Query query)) = true).
Proof.
  unfold listenQueries.
  destruct (GetOnePODF msg) as [po |] eqn:Hpo.
  2:{ cbn. split; [discriminate |].
      intros (po' & query' & Hp' & _). discriminate. }
  destruct (decodeQuery po) as [query |] eqn:Hq.
  2:{ cbn. split; [discriminate |].
      intros (po' & query' & [= <-] & Hq' & _). congruence. }
  destruct (string_dec (From msg) EmptyString) as [He | Hne].
  - rewrite He. cbn. split; [| reflexivity]. intros _. exists po, query.
    split; [reflexivity | split; [exact Hq | now left]].
  - rewrite (signalURIFor_nonempty _ Hne). cbn [mbind outcome_bind bind].
    destruct (HandleQuery Parse (From msg) (Query query)) as [r | why] eqn:Hr;
      cbn [mbind outcome_bind bind].
    + destruct (err r); cbn [panics]; (split; [discriminate |]);
        intros (po' & query' & [= <-] & Hq' & [H | H]); try contradiction;
        rewrite Hq in Hq'; injection Hq' as <-; rewrite Hr in H; discriminate.
    + cbn. split; [| reflexivity]. intros _. exists po, query.
      split; [reflexivity | split; [exact Hq |]]. right. now rewrite Hr.
Qed.

(** X19: which messages are ignored.  [listenQueries] returns without
    publishing exactly for the messages that carry no query payload object
    and for those whose query payload object is msgpack and fails to
    decode. *)
Theorem listenQueries_ignores_iff `{Ev : Evaluators}
    (Parse : string -> ParsedQuery) (msg : SimpleMessage) :
  listenQueries Parse msg = Returned []
  <-> GetOnePODF msg = None
      \/ exists po e, GetOnePODF msg = Some po /\ po_body po = MsgPack (inr e).
Proof.
  split.
  - intros Hrun.
    destruct (listenQueries_ignored_cases Parse msg) as [H | H]; [exact H |].
    destruct (H Hrun).
  - unfold listenQueries, decodeQuery.
    intros [-> | (po & e & -> & ->)]; reflexivity.
Qed.

(** X20: [HandleQuery] fills one result at most.  Of the metadata, the
    timeseries, the statistics and the changed-range result of a call that
    returns, at most one is non-empty; a parse error comes with no result
    at all, and a query of a type or of a data kind the function does not
    know comes back with no result and no error. *)
Theorem HandleQuery_one_result `{Ev : Evaluators} (Parse : string -> ParsedQuery)
    (vk query : string) (r : QueryResult) :
  HandleQuery Parse vk query = Returned r ->
  ((mdResult r = [] /\ tsResult r = [] /\ statsResult r = [])
   \/ (mdResult r = [] /\ tsResult r = [] /\ changedResult r = [])
   \/ (mdResult r = [] /\ statsResult r = [] /\ changedResult r = [])
   \/ (tsResult r = [] /\ statsResult r = [] /\ changedResult r = []))
  /\ (p_Err (Parse query) <> None ->
      mdResult r = [] /\ tsResult r = [] /\ statsResult r = []
      /\ changedResult r = [] /\ err r <> None)
  /\ (p_Err (Parse query) = None ->
      p_QueryType (Parse query) = OTHER_QUERY_TYPE ->
      r = noResult).
Proof.
  intros Hr. pose proof (HandleQuery_classes Parse vk query r Hr) as Hc.
  destruct (p_Err (Parse query)) as [perr |].
  - destruct Hc as (Hmd & Hts & Hst & Hch & He).
    split; [now left |]. split; [| discriminate].
    intros _. rewrite He. now repeat split.
  - split; [| split; [congruence |]].
    + destruct (p_QueryType (Parse query)).
      * destruct Hc as (Hts & Hst & Hch). now (right; right; right).
      * destruct Hc as (Hmd & [[Hts Hch] | [[Hst Hch] | [Hts Hst]]]).
        -- right. now left.
        -- right. right. now left.
        -- now left.
      * subst r. now left.
    + intros _ Ht. rewrite Ht in Hc. exact Hc.
Qed.

Lemma HandleQuery_one_result_witness :
  exists r, HandleQuery (Ev := refEvaluators) refParse "vk1=" "distinct" = Returned r
            /\ tsResult r = [] /\ statsResult r = [] /\ changedResult r = [].
Proof.
  eexists. split; [reflexivity |].
  destruct (HandleQuery_one_result (Ev := refEvaluators) refParse "vk1=" "distinct"
              _ eq_refl) as [[H | [H | [H | H]]] _];
    repeat split; reflexivity.
Defined.

(** ** The metadata store adapter, further *)

Section MongoMoreProps.
Context `{D : Decls} `{M : Mongo.Env}.

Lemma is_inclusion_selectTags (tags : list string) :
  tags <> [] -> is_inclusion (selectTags tags) = true.
Proof.
  intros Hne. destruct tags as [| tag tags]; [congruence |].
  apply bool_decide_eq_true. exists tag, 1. split; [| discriminate].
  apply fold_selectTags_in. now left.
Qed.

Lemma keeps_selectTags (tags : list string) (field : string) :
  keeps (selectTags tags) field = bool_decide (wanted tags field).
Proof.
  unfold keeps, wanted.
  destruct (in_dec string_dec field tags) as [Hin | Hnin].
  - unfold selectTags. rewrite (fold_selectTags_in _ _ _ Hin). cbn.
    destruct tags; [destruct Hin |]. symmetry. now apply bool_decide_eq_true.
  - unfold selectTags at 1. rewrite (fold_selectTags_other _ _ _ Hnin).
    destruct (decide (field = "_id")) as [-> | Hf].
    + rewrite lookup_singleton_eq. cbn.
      destruct tags; symmetry; apply bool_decide_eq_false; [congruence | exact Hnin].
    + rewrite lookup_singleton_ne by congruence.
      destruct tags as [| t tags].
      * replace (is_inclusion (selectTags [])) with false.
        -- cbn. symmetry. now apply bool_decide_eq_true.
        -- symmetry. apply bool_decide_eq_false.
           intros (i & v & Hl & Hv). rewrite selectTags_nil in Hl.
           apply lookup_singleton_Some in Hl as [_ <-].
           now apply Hv.
      * rewrite is_inclusion_selectTags by discriminate.
        replace (String.eqb field "_id") with false
          by (symmetry; now apply String.eqb_neq).
        cbn. symmetry. now apply bool_decide_eq_false.
Qed.

End MongoMoreProps.

(** X21: the fields of the documents [GetMetadata] fetches.  When the
    engine answers, the documents handed to the log are the stored
    documents that match the where clause (all of them for an empty
    clause), in stored order, each cut down to the fields asked for: all
    fields but [_id] for an empty tag list, exactly the tags otherwise
    ([_id] among them only if it is a tag). *)
Theorem GetMetadata_fetches `{M : Mongo.Env} {MetadataGroup : Type}
    (m : Mongo.Collection) (VK : string) (tags : list string) (where_ : Mongo.Dict) :
  Mongo.All_err m = None ->
  Mongo.gm_logged (Mongo.GetMetadata (MetadataGroup := MetadataGroup) m VK tags where_)
  = map (fun d => filter (fun kv => wanted tags kv.1) d)
        (if (Mongo.Dict_len where_ =? 0)%nat then Mongo.docs m
         else List.filter (Mongo.matches where_) (Mongo.docs m)).
Proof.
  intros Hall. unfold Mongo.GetMetadata. rewrite Hall. cbn [Mongo.gm_logged].
  unfold selected, staged. apply map_ext. intros d.
  apply map_eq. intros k. rewrite project_lookup, keeps_selectTags.
  destruct (d !! k) as [v |] eqn:Hd.
  - case_bool_decide as Hw.
    + symmetry. apply map_lookup_filter_Some. now split.
    + symmetry. apply map_lookup_filter_None. right. intros v' _. exact Hw.
  - case_bool_decide; symmetry; apply map_lookup_filter_None; now left.
Qed.

Lemma GetMetadata_fetches_witness :
  Mongo.gm_logged (Mongo.GetMetadata (MetadataGroup := unit) refCollection "vk1="
                     ["Value"; "uuid"] [("Key", Mongo.BString "Building")])
  = [<["uuid" := Mongo.BString "u1"]> {["Value" := Mongo.BString "Soda"]}].
Proof.
  rewrite (GetMetadata_fetches (M := refEnv) refCollection "vk1=" ["Value"; "uuid"]
             [("Key", Mongo.BString "Building")] eq_refl).
  vm_compute. reflexivity.
Defined.




(** ** The metadata scan over the metadata log *)

Section MetadataScanProps.
Import Bolt Prefix.

Lemma log_pairs_keys (vals : list string) :
  List.Forall (fun kv => exists i, 0 < i <= Z.of_nat (length vals)
                                   /\ fst kv = itob i)
              (log_pairs vals).
Proof.
  induction vals as [| v vals IH] using rev_ind; [constructor |].
  rewrite log_pairs_snoc, length_app. cbn [length].
  apply List.Forall_app. split.
  - eapply List.Forall_impl; [| exact IH]. cbn.
    intros kv (i & Hi & Hk). exists i. split; [lia | exact Hk].
  - constructor; [| constructor]. exists (Z.of_nat (S (length vals))).
    split; [lia | reflexivity].
Qed.

Lemma Seek_incl {V} (l : list (string * V)) (p : string) (kv : string * V) :
  List.In kv (Seek l p) -> List.In kv l.
Proof.
  induction l as [| [k v] l IH]; cbn [Seek]; [tauto |].
  destruct (key_ltb k p); [| tauto]. intros H. right. now apply IH.
Qed.

Lemma itob_first_byte (i : Z) :
  0 <= i < 2 ^ 56 ->
  exists rest, itob i = String "000"%char rest.
Proof.
  intros Hi. unfold itob. rewrite (Z.div_small i (2 ^ 56)) by lia.
  eexists. reflexivity.
Qed.

End MetadataScanProps.

(** X24: the metadata scan finds no URI.  After any sequence of
    [AddMetadataURI] calls on a fresh store (fewer than 2^56), the scan
    [GetMetadataSuperstrings] for a prefix that does not begin with the
    byte 0 returns the empty list, whatever URIs were added: it scans the
    sequence numbers, whose first byte is 0. *)
Theorem GetMetadataSuperstrings_finds_nothing (uris : list string)
    (c : ascii) (rest : string) (fuel : nat) :
  Z.of_nat (length uris) < 2 ^ 56 ->
  List.Forall storable_value uris ->
  c <> "000"%char ->
  Prefix.GetMetadataSuperstrings (S fuel)
    (AddMetadataURIs Prefix.NewPrefixStore uris) (String c rest)
  = Some ([], None).
Proof.
  intros Hlen Hv Hc.
  destruct (AddMetadataURIs_log Prefix.NewPrefixStore [] uris) as [Hp _];
    [split; reflexivity | cbn [length]; lia | exact Hv |].
  cbn [app] in Hp. unfold Prefix.GetMetadataSuperstrings. rewrite Hp.
  cbn [Prefix.superstrings].
  replace (Prefix.HasPrefix (Bolt.key (Bolt.Seek (log_pairs uris) (String c rest)))
             (String c rest)) with false; [reflexivity |].
  symmetry. unfold Prefix.HasPrefix.
  destruct (Bolt.Seek (log_pairs uris) (String c rest)) as [| [k v] l] eqn:Hs;
    [reflexivity |].
  assert (Hin : List.In (k, v) (log_pairs uris))
    by (apply (Seek_incl _ (String c rest)); rewrite Hs; now left).
  pose proof (log_pairs_keys uris) as Hk. rewrite List.Forall_forall in Hk.
  destruct (Hk _ Hin) as (i & Hi & Hki). cbn [fst] in Hki.
  destruct (itob_first_byte i ltac:(lia)) as (tail & Ht).
  cbn [Bolt.key Prefix.bytes_of]. cbn. rewrite Hki, Ht. cbn.
  destruct (ascii_dec c "000"%char); [contradiction | reflexivity].
Qed.

Lemma GetMetadataSuperstrings_finds_nothing_witness :
  Prefix.GetMetadataSuperstrings 4
    (AddMetadataURIs Prefix.NewPrefixStore ["scratch/r1"; "scratch/r2"]) "scratch"
  = Some ([], None).
Proof.
  apply (GetMetadataSuperstrings_finds_nothing ["scratch/r1"; "scratch/r2"]
           "s"%char "cratch" 3).
  - vm_compute. reflexivity.
  - repeat (apply List.Forall_cons; [vm_compute; discriminate |]).
    apply List.Forall_nil.
  - discriminate.
Defined.

(** ** Entering a stream and looking it up *)

Section EnterProps.
Import Bolt Prefix.

Lemma put_in {V} (k : string) (v : V) (l : list (string * V)) :
  List.In (k, v) (put k v l).
Proof.
  induction l as [| [k0 v0] l IH]; cbn [put]; [now left |].
  destruct (String.compare k k0); [now left | now left | now right].
Qed.

(** What [AddUUIDURIMapping] leaves for its URI when it succeeds, whatever
    the sub-bucket held. *)
Lemma AddUUIDURIMapping_records (store : PrefixStore) (uri : string) (uuid : UUID) :
  uri <> EmptyString -> storable_value uuid ->
  let store' := fst (AddUUIDURIMapping store uri uuid) in
  (exists ub, get uri (uuidBucket store') = Some ub
              /\ List.In uuid (map snd (pairs ub)))
  /\ (forall other, other <> uri ->
        get other (uuidBucket store') = get other (uuidBucket store))
  /\ tsBucket store' = tsBucket store.
Proof.
  intros Huri Hv store'. subst store'.
  unfold AddUUIDURIMapping, Update, CreateBucketIfNotExists.
  rewrite (nonempty_length uri Huri).
  assert (Hput : forall b id,
             exists b', Put b (itob id) uuid = (b', None)
                        /\ List.In uuid (map snd (pairs b'))).
  { intros b id. pose proof (Put_ok b (itob id) uuid) as Hok.
    pose proof (Put_pairs b (itob id) uuid) as Hp.
    destruct (Put b (itob id) uuid) as [b' [e |]]; cbn [fst snd] in *.
    - assert (Some e = None) by (apply Hok; split;
                                  [apply itob_storable_key | exact Hv]).
      discriminate.
    - exists b'. split; [reflexivity |]. rewrite (Hp eq_refl).
      change uuid with (snd (itob id, uuid)) at 1. apply in_map, put_in. }
  destruct (get uri (uuidBucket store)) as [ub |].
  - destruct (NextSequence ub) as [id ub1].
    destruct (Hput ub1 id) as (b' & -> & Hin).
    cbn [fst snd uuidBucket tsBucket]. rewrite get_put_same.
    split; [now exists b' |]. split; [| reflexivity].
    intros other Hne. now apply get_put_other.
  - destruct (NextSequence emptyBucket) as [id ub1].
    destruct (Hput ub1 id) as (b' & -> & Hin).
    cbn [fst snd uuidBucket tsBucket]. rewrite get_put_same.
    split; [now exists b' |]. split; [| reflexivity].
    intros other Hne. now rewrite !get_put_other.
Qed.

Lemma prefix_refl (s : string) : String.prefix s s = true.
Proof.
  induction s as [| a s IH]; [reflexivity |].
  cbn. now destruct (ascii_dec a a).
Qed.

End EnterProps.

(** X25: a stream that was entered is found again.  In a store where every
    timeseries URI has its UUID sub-bucket, entering a URI with a UUID
    (the calls [AddTimeseriesURI] and [AddUUIDURIMapping]) keeps that
    property, and afterwards [GetUUIDsFromURI] for the URI itself, and for
    every non-empty prefix of it, ends and returns a list that contains
    the UUID. *)
Theorem enter_then_lookup (store : Prefix.PrefixStore) (uri : string) (uuid : UUID)
    (p : string) :
  indexed store ->
  storable_key uri -> storable_value uuid ->
  p <> EmptyString -> String.prefix p uri = true ->
  let store' := enter store uri uuid in
  indexed store'
  /\ exists uuids,
       Prefix.GetUUIDsFromURI
         (S (length (Bolt.pairs (Prefix.tsBucket store')))) store' p
       = Some (uuids, None)
       /\ List.In uuid uuids.
Proof.
  intros [Ho Hb] Hk Hv Hp Hpre store'. subst store'. unfold enter.
  destruct (AddTimeseriesURI_step store uri Ho) as (Ho1 & Hk1 & _ & Hu1).
  cbn zeta in *.
  set (s1 := fst (Prefix.AddTimeseriesURI store uri)) in *.
  destruct (AddUUIDURIMapping_records s1 uri uuid (proj1 Hk) Hv)
    as ((ub & Hg & Hin) & Hother & Hts).
  cbn zeta in *.
  set (s2 := fst (Prefix.AddUUIDURIMapping s1 uri uuid)) in *.
  assert (Hidx : indexed s2).
  { split; [now rewrite Hts |]. intros k Hkin. rewrite Hts in Hkin.
    destruct (string_dec k uri) as [-> | Hne]; [congruence |].
    rewrite (Hother k Hne), Hu1. apply Hb.
    apply Hk1 in Hkin as [H | [H _]]; [exact H | contradiction]. }
  split; [exact Hidx |].
  unfold Prefix.GetUUIDsFromURI.
  rewrite GetTimeseriesSuperstrings_fuel by (assumption || apply Hidx || lia).
  cbn [mbind option_bind]. eexists. split; [reflexivity |].
  apply list_elem_of_In, elem_of_elements, unionUUIDs_complete.
  - apply List.Forall_forall. intros suri Hs.
    apply List.filter_In in Hs as [Hs _]. now apply Hidx.
  - right. exists uri, ub. split; [| now split].
    apply List.filter_In. split; [| exact Hpre].
    rewrite Hts. apply Hk1. right. now split.
Qed.

Lemma enter_then_lookup_witness :
  exists uuids,
    Prefix.GetUUIDsFromURI 2 (enter Prefix.NewPrefixStore "scratch/r1/temp" "U1")
      "scratch/r1"
    = Some (uuids, None)
    /\ List.In "U1" uuids.
Proof.
  refine (proj2 (enter_then_lookup Prefix.NewPrefixStore "scratch/r1/temp" "U1"
                   "scratch/r1" _ _ _ _ _)).
  - split; [constructor | intros k []].
  - split; [discriminate | vm_compute; discriminate].
  - vm_compute. discriminate.
  - discriminate.
  - reflexivity.
Defined.

(** ** Nearest points and deletions *)

Section ReadsProps.
Context `{D : Decls} `{E : Engine}.
Variable Nearest : Stream -> Z -> bool -> RawPoint float64 * Z * option error.


End ReadsProps.


(** X27: [DeleteData] stops at the first failure.  [DeleteRange] is called
    on the streams found for the request, in order; when every call
    succeeds all of them were called and no error is returned; otherwise
    the calls end with the first stream whose deletion fails, the error
    returned wraps that failure, and the streams after it are left as they
    were while those before it stay deleted. *)
Theorem DeleteData_stops_at_failure `{E : Engine}
    (DeleteRange : Stream -> Z -> Z -> option error)
    (bdb : btrdbv4Iface) (uuids : list UUID) (start end_ : Z) :
  let streams := snd (uuidsToStreams bdb uuids) in
  let called := fst (snd (Reads.DeleteData DeleteRange bdb uuids start end_)) in
  let err := snd (snd (Reads.DeleteData DeleteRange bdb uuids start end_)) in
  match err with
  | None =>
      called = streams
      /\ List.Forall (fun s => DeleteRange s start end_ = None) streams
  | Some e =>
      exists before stream cause after,
        streams = before ++ stream :: after
        /\ called = before ++ [stream]
        /\ List.Forall (fun s => DeleteRange s start end_ = None) before
        /\ DeleteRange stream start end_ = Some cause
        /\ e = ErrWrap cause ("Could not delete range for stream "
                              +:+ stream_UUID stream)
  end.
Proof.
  unfold Reads.DeleteData.
  destruct (uuidsToStreams bdb uuids) as [bdb' streams]. cbn [fst snd].
  induction streams as [| stream rest IH]; cbn [Reads.deleteLoop].
  - cbn. split; [reflexivity | constructor].
  - destruct (DeleteRange stream start end_) as [cause |] eqn:Hd.
    + cbn [fst snd]. exists [], stream, cause, rest.
      repeat split; [constructor | exact Hd].
    + destruct (Reads.deleteLoop DeleteRange rest start end_) as [called [e |]];
        cbn [fst snd] in *.
      * destruct IH as (before & s & cause & after & -> & -> & Hb & Hs & ->).
        exists (stream :: before), s, cause, after.
        split; [reflexivity | split; [reflexivity | split; [| now split]]].
        now constructor.
      * destruct IH as [-> Hall]. split; [reflexivity | now constructor].
Qed.
